(** * The script engine of hof (script/script.go), embedded and verified

    The development follows the Go source: Go strings are byte strings
    ([string]), Go [int] is [Z], maps are stdpp [gmap]s, pointers to request
    objects are locations in an explicit heap, and the three ways a Go call
    can end early ([t.FailNow] through [Fatalf], a [panic], an [error]
    value) are kept apart. *)

From Stdlib Require Import ZArith Ascii String List Bool Lia.
From stdpp Require Import base option list gmap strings pretty.
Import ListNotations.

Local Open Scope string_scope.
Local Open Scope Z_scope.

(* ===================================================================== *)
(** * Go strings *)
(* ===================================================================== *)

Module GoStr.

(** [len(s)] *)
Definition len (s : string) : Z := Z.of_nat (String.length s).

(** [s[i]]; [None] stands for an index out of range. *)
Definition at_ (s : string) (i : Z) : option ascii :=
  if i <? 0 then None else String.get (Z.to_nat i) s.

(** [s[i] == c], guarded by the source's own bounds test. *)
Definition at_is (s : string) (i : Z) (c : ascii) : bool :=
  match at_ s i with
  | Some x => Ascii.eqb x c
  | None => false
  end.

(** [s[lo:hi]] *)
Definition slice (s : string) (lo hi : Z) : string :=
  String.substring (Z.to_nat lo) (Z.to_nat (hi - lo)) s.

(** [strings.HasPrefix(s, p)] *)
Definition HasPrefix (s p : string) : bool := String.prefix p s.

(** [strings.HasSuffix(s, p)] *)
Definition HasSuffix (s p : string) : bool :=
  (len p <=? len s) && String.eqb (slice s (len s - len p) (len s)) p.

(** [strings.Index(s, sep)], [-1] when absent. *)
Definition Index (s sep : string) : Z :=
  match String.index 0 sep s with
  | Some n => Z.of_nat n
  | None => -1
  end.

(** [strings.Contains(s, sub)] *)
Definition Contains (s sub : string) : bool := 0 <=? Index s sub.

(** ASCII white space as [strings.TrimSpace] sees it. *)
Definition is_space (c : ascii) : bool :=
  let n := nat_of_ascii c in
  ((9 <=? n)%nat && (n <=? 13)%nat) || (n =? 32)%nat.

Fixpoint trim_left (s : string) : string :=
  match s with
  | String c s' => if is_space c then trim_left s' else s
  | EmptyString => EmptyString
  end.

Fixpoint trim_right (s : string) : string :=
  match s with
  | String c s' =>
      match trim_right s' with
      | EmptyString => if is_space c then EmptyString else String c EmptyString
      | t => String c t
      end
  | EmptyString => EmptyString
  end.

(** [strings.TrimSpace(s)] *)
Definition TrimSpace (s : string) : string := trim_right (trim_left s).

(** [strings.TrimSuffix(s, suffix)] *)
Definition TrimSuffix (s suffix : string) : string :=
  if HasSuffix s suffix then slice s 0 (len s - len suffix) else s.

Definition upper_ascii (c : ascii) : ascii :=
  let n := nat_of_ascii c in
  if (97 <=? n)%nat && (n <=? 122)%nat then ascii_of_nat (n - 32) else c.

(** [strings.ToUpper(s)] on ASCII text. *)
Fixpoint ToUpper (s : string) : string :=
  match s with
  | String c s' => String (upper_ascii c) (ToUpper s')
  | EmptyString => EmptyString
  end.

(** The pieces of [s] between occurrences of the one-byte separator [c]:
    the head piece and the remaining pieces. *)
Fixpoint split_on (c : ascii) (s : string) : string * list string :=
  match s with
  | EmptyString => (EmptyString, [])
  | String x s' =>
      let '(h, t) := split_on c s' in
      if Ascii.eqb x c then (EmptyString, h :: t) else (String x h, t)
  end.

(** [strings.Split(s, sep)] for a one-byte [sep]. *)
Definition Split (s : string) (c : ascii) : list string :=
  let '(h, t) := split_on c s in h :: t.

(** [strings.SplitN(s, sep, 2)] for a one-byte [sep]. *)
Definition SplitN2 (s : string) (c : ascii) : list string :=
  let i := Index s (String c EmptyString) in
  if i <? 0 then [s] else [slice s 0 i; slice s (i + 1) (len s)].

(** [strings.Fields(s)]: maximal runs of non-space bytes. *)
Fixpoint fields_aux (s : string) (cur : string) : list string :=
  match s with
  | EmptyString => if String.eqb cur EmptyString then [] else [cur]
  | String c s' =>
      if is_space c
      then (if String.eqb cur EmptyString then fields_aux s' EmptyString else cur :: fields_aux s' EmptyString)
      else fields_aux s' (cur ++ String c EmptyString)
  end.

Definition Fields (s : string) : list string := fields_aux s EmptyString.

End GoStr.

Import GoStr.

(* ===================================================================== *)
(** * How a call ends *)
(* ===================================================================== *)

(** The reasons [ts.Fatalf] (or [t.Fatal]) is called with in script.go. *)
Inductive failure : Type :=
| UnterminatedQuote                     (* "unterminated quoted argument" *)
| MissingCommand                        (* "missing command after condition" *)
| BadCondition (cond err : string)      (* "bad condition %q: %v" *)
| UnknownCondition (cond : string)      (* "unknown condition %q" *)
| BangAlone                             (* "! on line by itself" *)
| QuestionAlone                         (* "? on line by itself" *)
| UnknownCommand (name : string)        (* "unknown command %q" *)
| CheckFailed (err : string)            (* ts.Check(err): "%v" *)
| HttpClientUsage                       (* "usage: http client ..." *)
| UnknownHttpClient (name : string)     (* "unknown http client %q" *)
| RetryUsage                            (* "http retry usage: ..." *)
| CannotUpdateFile (name err : string)  (* "cannot update script file %q: %v" *)
| CannotUpdateScript (err : string)     (* "cannot update script: " err *)
| CommandFailed (msg : string).         (* raised inside a command *)

(** A Go call returns, or stops the test unit through [FailNow], or panics. *)
Inductive res (A : Type) : Type :=
| Ret (a : A)
| Fatal (f : failure)
| Panic (msg : string).
Arguments Ret {A} a.
Arguments Fatal {A} f.
Arguments Panic {A} msg.

#[global] Instance res_ret : MRet res := fun A a => Ret a.
#[global] Instance res_bind : MBind res := fun A B k m =>
  match m with
  | Ret a => k a
  | Fatal f => Fatal f
  | Panic p => Panic p
  end.

(* ===================================================================== *)
(** * The line parser, [Script.parse] *)
(* ===================================================================== *)

Module Parse.

(** The local variables of [parse]: [args], [arg], [start], [quoted] and the
    loop index [i]. *)
Record pstate : Type := PState {
  args : list string;
  arg : string;
  start : Z;
  quoted : bool;
  idx : Z
}.

Definition init : pstate :=
  {| args := []; arg := EmptyString; start := -1; quoted := false; idx := 0 |}.

(** What one turn of the [for i := 0; ; i++] loop does. *)
Inductive turn : Type :=
| Continue (st : pstate)
| Break (args : list string)
| Abort (f : failure).

Definition is_sep (line : string) (i : Z) : bool :=
  at_is line i " " || at_is line i "009" || at_is line i "013" || at_is line i "#".

(** One turn of the loop; [expand] is [ts.expand]. *)
Definition parse_step (expand : string -> string) (line : string) (st : pstate) : turn :=
  let i := idx st in
  if negb (quoted st) && ((len line <=? i) || is_sep line i) then
    (* Found arg-separating space. *)
    let st1 :=
      if 0 <=? start st then
        {| args := args st ++ [arg st ++ expand (slice line (start st) i)];
           arg := EmptyString; start := -1; quoted := quoted st; idx := i |}
      else st in
    if (len line <=? i) || at_is line i "#" then Break (args st1)
    else Continue {| args := args st1; arg := arg st1; start := start st1;
                     quoted := quoted st1; idx := i + 1 |}
  else if len line <=? i then Abort UnterminatedQuote
  else if at_is line i "'" then
    if negb (quoted st) then
      (* starting a quoted chunk *)
      Continue {| args := args st;
                  arg := if 0 <=? start st
                         then arg st ++ expand (slice line (start st) i)
                         else arg st;
                  start := i + 1; quoted := true; idx := i + 1 |}
    else if (i + 1 <? len line) && at_is line (i + 1) "'" then
      (* 'foo''bar' means foo'bar *)
      Continue {| args := args st; arg := arg st ++ slice line (start st) i;
                  start := i + 1; quoted := true; idx := i + 1 + 1 |}
    else
      (* ending a quoted chunk *)
      Continue {| args := args st; arg := arg st ++ slice line (start st) i;
                  start := i + 1; quoted := false; idx := i + 1 |}
  else
    (* found character worth saving; make sure we're saving *)
    Continue {| args := args st; arg := arg st;
                start := if start st <? 0 then i else start st;
                quoted := quoted st; idx := i + 1 |}.

(** [n] turns of the loop from [st]. *)
Fixpoint parse_steps (expand : string -> string) (n : nat) (line : string)
    (st : pstate) : turn :=
  match n with
  | O => Continue st
  | S n' =>
      match parse_step expand line st with
      | Continue st' => parse_steps expand n' line st'
      | t => t
      end
  end.

(** The loop, run until it breaks or aborts; [None] when [fuel] turns were
    not enough. *)
Fixpoint parse_loop (expand : string -> string) (fuel : nat) (line : string)
    (st : pstate) : option (res (list string)) :=
  match fuel with
  | O => None
  | S fuel' =>
      match parse_step expand line st with
      | Continue st' => parse_loop expand fuel' line st'
      | Break a => Some (Ret a)
      | Abort f => Some (Fatal f)
      end
  end.

(** [ts.parse(line)]. The index grows at every turn and the loop ends once
    it has reached [len(line)], so [len(line) + 1] turns are enough
    ([parse_loop_total] below). *)
Definition parse (expand : string -> string) (line : string) : res (list string) :=
  match parse_loop expand (S (String.length line)) line init with
  | Some r => r
  | None => Panic "parse: out of fuel"
  end.

(** A quoted span as it is written: every quote of the text doubled. *)
Fixpoint quote_body (s : string) : string :=
  match s with
  | EmptyString => EmptyString
  | String c s' =>
      if Ascii.eqb c "'" then String "'" (String "'" (quote_body s'))
      else String c (quote_body s')
  end.

(** The text of the chunk the parser is collecting, if any. *)
Definition pending (expand : string -> string) (line : string) (st : pstate) : string :=
  if 0 <=? start st then expand (slice line (start st) (idx st)) else EmptyString.

Definition starts_with_quote (s : string) : bool :=
  match s with
  | String c _ => Ascii.eqb c "'"
  | EmptyString => false
  end.

(** What follows ends the argument: the end of the line, or a separator. *)
Definition ends_arg (s : string) : bool :=
  match s with
  | String c _ =>
      Ascii.eqb c " " || Ascii.eqb c "009" || Ascii.eqb c "013" || Ascii.eqb c "#"
  | EmptyString => true
  end.

(** The arguments collected when the loop is left at a turn. *)
Definition turn_args (t : turn) : list string :=
  match t with
  | Continue st => args st
  | Break a => a
  | Abort _ => []
  end.

(** ** Lines without quotes: what [parse] comes to *)

(** A separator byte of [parse]: space, tab, carriage return, or [#]. *)
Definition is_sep_byte (x : ascii) : bool :=
  Ascii.eqb x " " || Ascii.eqb x "009" || Ascii.eqb x "013" || Ascii.eqb x "#".

(** The words of a line read byte by byte: [cur] is the word being read.
    A separator ends the word, [#] ends the line. *)
Fixpoint tok (cur : option string) (rest : string) : list string :=
  match rest with
  | EmptyString => match cur with Some c => [c] | None => [] end
  | String x r =>
      if Ascii.eqb x "#" then match cur with Some c => [c] | None => [] end
      else if is_sep_byte x then
        match cur with Some c => c :: tok None r | None => tok None r end
      else tok (Some (match cur with
                      | Some c => c ++ String x EmptyString
                      | None => String x EmptyString
                      end)) r
  end.

Definition split_plain (line : string) : list string := tok None line.

(** No quote before the first [#] of the text. *)
Fixpoint code_quote_free (s : string) : bool :=
  match s with
  | EmptyString => true
  | String x r =>
      if Ascii.eqb x "#" then true
      else if Ascii.eqb x "'" then false
      else code_quote_free r
  end.

(** Only spaces, tabs and carriage returns. *)
Fixpoint blank (s : string) : bool :=
  match s with
  | EmptyString => true
  | String x r =>
      (Ascii.eqb x " " || Ascii.eqb x "009" || Ascii.eqb x "013") && blank r
  end.

(** The text collected so far, as the loop holds it. *)
Definition held (cur : option string) : string :=
  match cur with Some c => c | None => EmptyString end.
Definition held_start (cur : option string) (A0 : string) : Z :=
  match cur with Some _ => len A0 | None => -1 end.

End Parse.

(* ===================================================================== *)
(** * The environment: [ts.env], [ts.envMap], [Setenv], [Getenv] *)
(* ===================================================================== *)

Module Env.

(** [ts.env] and [ts.envMap]. *)
Record vars : Type := Vars {
  env : list string;
  envMap : gmap string string
}.

(** One turn of the loop that ends [setup]:
    [if i := strings.Index(kv, "="); i >= 0 { envMap[envvarname(kv[:i])] = kv[i+1:] }].
    [envvarname] lives in a file of its own per platform and is a parameter. *)
Definition record_kv (envvarname : string -> string) (m : gmap string string)
    (kv : string) : gmap string string :=
  let i := Index kv "=" in
  if 0 <=? i then <[envvarname (slice kv 0 i) := slice kv (i + 1) (len kv)]> m
  else m.

(** The end of [setup]: [ts.env = env.Vars] and the map built from it. *)
Definition build_envMap (envvarname : string -> string) (l : list string)
    : gmap string string :=
  foldl (record_kv envvarname) ∅ l.

Definition setup_vars (envvarname : string -> string) (l : list string) : vars :=
  {| env := l; envMap := build_envMap envvarname l |}.

(** [ts.Setenv(key, value)] *)
Definition Setenv (envvarname : string -> string) (key value : string) (v : vars) : vars :=
  {| env := env v ++ [key ++ "=" ++ value];
     envMap := <[envvarname key := value]> (envMap v) |}.

(** [ts.Getenv(key)]; a missing key of a Go map reads as the empty string. *)
Definition Getenv (envvarname : string -> string) (key : string) (v : vars) : string :=
  default EmptyString (envMap v !! envvarname key).

(** [Env.Getenv] of the setup-time view: the list scanned from its end for
    the last [K=V] whose normalized [K] is the normalized key. *)
Fixpoint scan_back (envvarname : string -> string) (key : string) (rev_vars : list string)
    : option string :=
  match rev_vars with
  | [] => None
  | kv :: rest =>
      match SplitN2 kv "=" with
      | [k; v] => if String.eqb (envvarname k) key then Some v
                  else scan_back envvarname key rest
      | _ => scan_back envvarname key rest
      end
  end.

Definition Env_Getenv (envvarname : string -> string) (key : string) (l : list string)
    : string :=
  default EmptyString (scan_back envvarname (envvarname key) (rev l)).

(** The last value written for a normalized key when the list is replayed
    in order. *)
Definition replayed (envvarname : string -> string) (l : list string) (k : string)
    : option string :=
  scan_back envvarname k (rev l).

(** The invariant: the map is the replay of the list. *)
Definition consistent (envvarname : string -> string) (v : vars) : Prop :=
  forall k, envMap v !! k = replayed envvarname (env v) k.

(** [Env.Setenv(key, value)] of the setup-time view: it panics on a key that
    is empty or holds ['=']. *)
Definition Env_Setenv (key value : string) (l : list string) : res (list string) :=
  if String.eqb key EmptyString || negb (Index key "=" <? 0)
  then Panic "invalid environment variable key"
  else Ret (app l [key ++ "=" ++ value]).

End Env.

(* ===================================================================== *)
(** * The HTTP sub-language: [http], [manageHttpClient], [reqFromArgs],
      [applyArgToReq] *)
(* ===================================================================== *)

Module Http.

(** The builder calls of the request library that the script engine makes on
    a request object; the object remembers them in order. *)
Inductive call : Type :=
| CQuery (v : string)
| CRetry (count : Z) (delay : Z) (codes : list Z)
| CSend (v : string)
| CSendFile (content filename fieldname : string)
| CSetBasicAuth (user pass : string)
| CSet (name value : string).

(** A request object: the two fields script.go assigns directly and the
    builder calls made on it. *)
Record SuperAgent : Type := Agent {
  Method : string;
  Url : string;
  Calls : list call
}.

Definition set_Method (m : string) (a : SuperAgent) : SuperAgent :=
  {| Method := m; Url := Url a; Calls := Calls a |}.
Definition set_Url (u : string) (a : SuperAgent) : SuperAgent :=
  {| Method := Method a; Url := u; Calls := Calls a |}.
Definition add_call (c : call) (a : SuperAgent) : SuperAgent :=
  {| Method := Method a; Url := Url a; Calls := Calls a ++ [c] |}.

(** Request objects are used through pointers: a heap of objects. *)
Definition loc : Type := positive.

(** [ts.httpClients] and the objects its pointers lead to. *)
Record hstate : Type := HState {
  httpClients : gmap string loc;
  heap : gmap loc SuperAgent
}.

(** [resp]: the library's response handle is a pointer and may be nil;
    reading [resp.StatusCode] through nil panics. *)
Record Response : Type := { StatusCode : Z }.

(** What the engine needs from outside the request code. *)
Record Host : Type := {
  (** [ts.ReadFile(file)]; it fails the test when the file cannot be read. *)
  ReadFile : string -> res string;
  (** [strconv.Atoi] *)
  Atoi : string -> string + Z;
  (** [time.ParseDuration] *)
  ParseDuration : string -> string + Z;
  (** [req.End()]: the request object once the exchange is over, and
      [resp, body, errs] (every error by its [Error()] text). *)
  End_ : SuperAgent -> SuperAgent * (option Response * string * list string)
}.

(** The [(req, err)] pair [applyArgToReq] returns. *)
Inductive applied : Type :=
| Applied (req : loc)
| Rejected (err : string).

Definition in_keys (K : string) (ks : list string) : bool :=
  existsb (String.eqb K) ks.

(** [strconv.Atoi] on each code, [ts.Check] after each. *)
Fixpoint atoi_all (H : Host) (codes : list string) : res (list Z) :=
  match codes with
  | [] => Ret []
  | code :: rest =>
      match Atoi H code with
      | inl e => Fatal (CheckFailed e)
      | inr i => cs ← atoi_all H rest; Ret (i :: cs)
      end
  end.

(** The change a [switch] arm makes to the request object, computed before
    it is written through the pointer; [None] is the [default] arm's error. *)
Definition arg_effect (H : Host) (arg : string)
    : res (option (SuperAgent -> SuperAgent)) :=
  let flds := SplitN2 arg "=" in
  let key := nth 0 flds EmptyString in
  let val := match flds with [_; v] => v | _ => EmptyString end in
  let K := ToUpper key in
  if in_keys K ["U"; "URL"] then Ret (Some (set_Url val))
  else if in_keys K ["T"; "TYPE"] then Ret (Some (set_Url val))
  else if in_keys K ["Q"; "QUERY"] then
    val ← (if HasPrefix val "@" then ReadFile H (slice val 1 (len val)) else Ret val);
    Ret (Some (add_call (CQuery val)))
  else if in_keys K ["R"; "RETRY"] then
    match Fields val with
    | cnt :: tmr :: ((_ :: _) as codes) =>
        match Atoi H cnt with
        | inl e => Fatal (CheckFailed e)
        | inr c =>
            match ParseDuration H tmr with
            | inl e => Fatal (CheckFailed e)
            | inr t => cs ← atoi_all H codes; Ret (Some (add_call (CRetry c t cs)))
            end
        end
    | _ => Fatal RetryUsage
    end
  else if in_keys K ["D"; "DATA"; "S"; "SEND"] then
    val ← (if HasPrefix val "@" then ReadFile H (slice val 1 (len val)) else Ret val);
    Ret (Some (add_call (CSend val)))
  else if in_keys K ["F"; "FILE"] then
    let flds := Split val ":" in
    let filename := TrimSpace (nth 0 flds EmptyString) in
    let fieldname := match flds with _ :: f :: _ => TrimSpace f | _ => EmptyString end in
    content ← ReadFile H filename;
    Ret (Some (add_call (CSendFile content filename fieldname)))
  else if in_keys K ["A"; "AUTH"] then
    match Split val ":" with
    | k :: v :: _ => Ret (Some (add_call (CSetBasicAuth (TrimSpace k) (TrimSpace v))))
    | _ => Panic "index out of range [1] with length 1"
    end
  else if in_keys K ["H"; "HEADER"] then
    match Split val ":" with
    | k :: v :: _ => Ret (Some (add_call (CSet (TrimSpace k) (TrimSpace v))))
    | _ => Panic "index out of range [1] with length 1"
    end
  else if in_keys K ["M"; "METHOD"] then Ret (Some (set_Method K))
  else if in_keys K ["GET"; "POST"; "HEAD"; "PUT"; "DELETE"; "PATCH"; "OPTIONS"] then
    Ret (Some (set_Method K))
  else if HasPrefix key "http" then Ret (Some (set_Url key))
  else Ret None.

(** [ts.applyArgToReq(req, arg)]: the object behind [req] is changed in
    place and [req] itself is returned. The heap is returned on every
    path. *)
Definition applyArgToReq (H : Host) (req : loc) (arg : string)
    (h : gmap loc SuperAgent) : gmap loc SuperAgent * res applied :=
  match arg_effect H arg with
  | Ret (Some f) => (alter f req h, Ret (Applied req))
  | Ret None => (h, Ret (Rejected ("unknown http arg/key: " ++ arg)))
  | Fatal e => (h, Fatal e)
  | Panic p => (h, Panic p)
  end.

(** [ts.applyArgsToReq(req, args)] *)
Fixpoint applyArgsToReq (H : Host) (req : loc) (args : list string)
    (h : gmap loc SuperAgent) : gmap loc SuperAgent * res applied :=
  match args with
  | [] => (h, Ret (Applied req))
  | arg :: rest =>
      match applyArgToReq H req arg h with
      | (h', Ret (Applied req')) => applyArgsToReq H req' rest h'
      | (h', Ret (Rejected e)) => (h', Ret (Rejected e))
      | (h', Fatal e) => (h', Fatal e)
      | (h', Panic p) => (h', Panic p)
      end
  end.

(** A new object takes a location the heap does not use. *)
Definition alloc (a : SuperAgent) (h : gmap loc SuperAgent)
    : loc * gmap loc SuperAgent :=
  let l := fresh (dom h) in (l, <[l := a]> h).

(** [gorequest.New()]: an object on which nothing has been set. *)
Definition gorequest_New : SuperAgent :=
  {| Method := EmptyString; Url := EmptyString; Calls := [] |}.

(** [ts.applyDefaultsToReq(req)] *)
Definition applyDefaultsToReq (a : SuperAgent) : SuperAgent := set_Method "GET" a.

Definition new_agent : SuperAgent := applyDefaultsToReq gorequest_New.

(** [ts.newReqFromArgs(args)] *)
Definition newReqFromArgs (H : Host) (args : list string)
    (h : gmap loc SuperAgent) : gmap loc SuperAgent * res applied :=
  let '(req, h1) := alloc new_agent h in
  applyArgsToReq H req args h1.

(** [req.Clone()]: a copy of the object at a new location. *)
Definition Clone (req : loc) (h : gmap loc SuperAgent)
    : res (loc * gmap loc SuperAgent) :=
  match h !! req with
  | Some a => Ret (alloc a h)
  | None => Panic "nil pointer dereference"
  end.

(** [ts.reqFromArgs(args)] *)
Definition reqFromArgs (H : Host) (args : list string) (s : hstate)
    : hstate * res applied :=
  match args with
  | [] => (s, Panic "index out of range [0] with length 0")
  | a0 :: rest =>
      match httpClients s !! a0 with
      | Some req =>
          (* first arg is a known client *)
          match Clone req (heap s) with
          | Ret (R, h1) =>
              let '(h2, r) := applyArgsToReq H R rest h1 in
              ({| httpClients := httpClients s; heap := h2 |}, r)
          | Fatal e => (s, Fatal e)
          | Panic p => (s, Panic p)
          end
      | None =>
          let '(h2, r) := newReqFromArgs H args (heap s) in
          ({| httpClients := httpClients s; heap := h2 |}, r)
      end
  end.

(** [ts.Check(err)] on the pair an [apply...] call returned. *)
Definition checked (r : res applied) : res loc :=
  match r with
  | Ret (Applied req) => Ret req
  | Ret (Rejected e) => Fatal (CheckFailed e)
  | Fatal e => Fatal e
  | Panic p => Panic p
  end.

(** [ts.manageHttpClient(args)] *)
Definition manageHttpClient (H : Host) (args : list string) (s : hstate)
    : hstate * res unit :=
  match args with
  | [] => (s, Fatal HttpClientUsage)
  | key :: tl =>
      let '(name, args') :=
        match tl with
        | [] => ("default", [])
        | n :: rest => (n, rest)
        end in
      if String.eqb key "new" then
        let '(h1, r) := newReqFromArgs H args' (heap s) in
        match checked r with
        | Ret req => ({| httpClients := <[name := req]> (httpClients s); heap := h1 |}, Ret tt)
        | Fatal e => ({| httpClients := httpClients s; heap := h1 |}, Fatal e)
        | Panic p => ({| httpClients := httpClients s; heap := h1 |}, Panic p)
        end
      else if String.eqb key "mod" then
        match httpClients s !! name with
        | None => (s, Fatal (UnknownHttpClient name))
        | Some req =>
            let '(h1, r) := applyArgsToReq H req args' (heap s) in
            match checked r with
            | Ret req' => ({| httpClients := <[name := req']> (httpClients s); heap := h1 |}, Ret tt)
            | Fatal e => ({| httpClients := httpClients s; heap := h1 |}, Fatal e)
            | Panic p => ({| httpClients := httpClients s; heap := h1 |}, Panic p)
            end
        end
      else if String.eqb key "del" then
        match httpClients s !! name with
        | None => (s, Fatal (UnknownHttpClient name))
        | Some _ => ({| httpClients := delete name (httpClients s); heap := heap s |}, Ret tt)
        end
      else (s, Fatal HttpClientUsage)
  end.

Definition HTTP2_GOAWAY_CHECK : string :=
  "http2: server sent GOAWAY and closed the connection".

Definition nl : string := String "010" EmptyString.
Definition backspace : string := String "008" EmptyString.

(** [fmt]'s [%v] of a slice of errors. *)
Definition fmt_errs (errs : list string) : string :=
  "[" ++ String.concat " " errs ++ "]".

(** The four values [http] returns: output, error output, status, error. *)
Record reply : Type := Reply {
  out : string;
  errout : string;
  code : Z;
  err : option string
}.

Definition deref (resp : option Response) : res Response :=
  match resp with
  | Some r => Ret r
  | None => Panic "nil pointer dereference"
  end.

(** The part of [http] after [req.End()]: the body gets its newline, then
    the response is classified. *)
Definition respond (resp : option Response) (body : string) (errs : list string)
    : res reply :=
  let body := body ++ nl in
  match errs with
  | e0 :: _ =>
      if negb (Contains e0 HTTP2_GOAWAY_CHECK) then
        r ← deref resp;
        Ret (Reply EmptyString body (StatusCode r)
               (Some ("Internal Weirdr Error:" ++ backspace ++ fmt_errs errs ++ nl
                      ++ body ++ nl)))
      else
        r ← deref resp;
        Ret (Reply EmptyString body (StatusCode r)
               (Some ("Internal Error:" ++ nl ++ fmt_errs errs ++ nl ++ body ++ nl)))
  | [] =>
      r ← deref resp;
      if 500 <=? StatusCode r then
        Ret (Reply EmptyString body (StatusCode r)
               (Some ("Internal Error:" ++ nl ++ fmt_errs errs ++ nl ++ body ++ nl)))
      else if 400 <=? StatusCode r then
        Ret (Reply EmptyString body (StatusCode r)
               (Some ("Bad Request:" ++ nl ++ body ++ nl)))
      else Ret (Reply body EmptyString (StatusCode r) None)
  end.

(** [ts.http(args)] *)
Definition http (H : Host) (args : list string) (s : hstate) : hstate * res reply :=
  match args with
  | [] => (s, Panic "index out of range [0] with length 0")
  | a0 :: rest =>
      if String.eqb a0 "client" then
        match manageHttpClient H rest s with
        | (s1, Ret _) => (s1, Ret (Reply EmptyString EmptyString 0 None))
        | (s1, Fatal e) => (s1, Fatal e)
        | (s1, Panic p) => (s1, Panic p)
        end
      else
        let '(s1, r) := reqFromArgs H args s in
        match checked r with
        | Ret req =>
            match heap s1 !! req with
            | Some a =>
                let '(a', (resp, body, errs)) := End_ H a in
                ({| httpClients := httpClients s1; heap := <[req := a']> (heap s1) |},
                 respond resp body errs)
            | None => (s1, Panic "nil pointer dereference")
            end
        | Fatal e => (s1, Fatal e)
        | Panic p => (s1, Panic p)
        end
  end.

(** Whether [http] reports a failure: [len(errs) != 0], or a status of 400
    and more. *)
Definition failed (r0 : Response) (errs : list string) : bool :=
  negb (Nat.eqb (List.length errs) 0) || (400 <=? StatusCode r0).

(** What a failure message holds before the body, by the formats of the
    four [fmt.Errorf] calls. *)
Definition heading (r0 : Response) (errs : list string) : string :=
  match errs with
  | e0 :: _ =>
      (if Contains e0 HTTP2_GOAWAY_CHECK
       then "Internal Error:" ++ nl
       else "Internal Weirdr Error:" ++ backspace) ++ fmt_errs errs ++ nl
  | [] =>
      if 500 <=? StatusCode r0
      then "Internal Error:" ++ nl ++ fmt_errs errs ++ nl
      else "Bad Request:" ++ nl
  end.

End Http.

(* ===================================================================== *)
(** * The golden-file updater, [applyScriptUpdates] *)
(* ===================================================================== *)

Module Golden.

(** [txtar.File] and [txtar.Archive]. *)
Record File : Type := { Name : string; Data : string }.
Record Archive : Type := { Comment : string; Files : list File }.

(** The archive package and the file system, as [applyScriptUpdates] uses
    them. *)
Record Host : Type := {
  (** [txtar.NeedsQuote] *)
  NeedsQuote : string -> bool;
  (** [txtar.Quote]: an error or the quoted data. *)
  Quote : string -> string + string;
  (** [txtar.Format] *)
  Format : Archive -> string;
  (** [ioutil.WriteFile(name, data, 0666)]: the error, if any. *)
  WriteFile : string -> string -> option string
}.

(** [ts.file], [ts.archive], [ts.scriptUpdates], what the run has written to
    disk, and [ts.log]. *)
Record gstate : Type := GState {
  file : string;
  archive : Archive;
  scriptUpdates : gmap string string;
  written : list (string * string);
  glog : string
}.

(** The inner loop, [for i := range ts.archive.Files], for one recorded
    [name, content]; the files are changed in place, so they are returned
    on every path, with the value of [found]. *)
Fixpoint update_entries (H : Host) (name content : string) (fs : list File)
    (found : bool) : list File * res bool :=
  match fs with
  | [] => ([], Ret found)
  | f :: rest =>
      if negb (String.eqb (Name f) name) then
        let '(rest', r) := update_entries H name content rest found in
        (f :: rest', r)
      else if NeedsQuote H content then
        match Quote H content with
        | inl e => (f :: rest, Fatal (CannotUpdateFile (Name f) e))
        | inr data1 =>
            let '(rest', r) := update_entries H name content rest true in
            ({| Name := Name f; Data := data1 |} :: rest', r)
        end
      else
        let '(rest', r) := update_entries H name content rest true in
        ({| Name := Name f; Data := content |} :: rest', r)
  end.

(** The outer loop, [for name, content := range ts.scriptUpdates], over the
    pairs in the order the map hands them out. *)
Fixpoint apply_updates (H : Host) (order : list (string * string))
    (fs : list File) : list File * res unit :=
  match order with
  | [] => (fs, Ret tt)
  | (name, content) :: rest =>
      match update_entries H name content fs false with
      | (fs', Ret true) => apply_updates H rest fs'
      | (fs', Ret false) => (fs', Panic "script update file not found")
      | (fs', Fatal e) => (fs', Fatal e)
      | (fs', Panic p) => (fs', Panic p)
      end
  end.

Definition with_files (fs : list File) (s : gstate) : gstate :=
  {| file := file s;
     archive := {| Comment := Comment (archive s); Files := fs |};
     scriptUpdates := scriptUpdates s; written := written s; glog := glog s |}.

(** [ts.applyScriptUpdates()]. A Go map is ranged over in an order of the
    runtime's choosing: [order] is that order. *)
Definition applyScriptUpdates (H : Host) (order : list (string * string))
    (s : gstate) : gstate * res unit :=
  match order with
  | [] => (s, Ret tt)
  | _ :: _ =>
      match apply_updates H order (Files (archive s)) with
      | (fs', Ret _) =>
          let s1 := with_files fs' s in
          let data := Format H (archive s1) in
          match WriteFile H (file s) data with
          | Some e => (s1, Fatal (CannotUpdateScript e))
          | None =>
              ({| file := file s1; archive := archive s1;
                  scriptUpdates := scriptUpdates s1;
                  written := written s1 ++ [(file s, data)];
                  glog := glog s1 ++ file s ++ " updated" ++ String "010" EmptyString |},
               Ret tt)
          end
      | (fs', Fatal e) => (with_files fs' s, Fatal e)
      | (fs', Panic p) => (with_files fs' s, Panic p)
      end
  end.

(** The content an entry gets for a recorded text. *)
Definition stored (H : Host) (content : string) : string :=
  if NeedsQuote H content then
    match Quote H content with
    | inr q => q
    | inl _ => content
    end
  else content.

(** An archive entry after all updates: its data replaced when its name has
    a recorded text. *)
Definition patched (H : Host) (m : gmap string string) (f : File) : File :=
  match m !! Name f with
  | Some content => {| Name := Name f; Data := stored H content |}
  | None => f
  end.

(** Quoting works on every recorded text that needs it. *)
Definition quotable (H : Host) (m : gmap string string) : Prop :=
  forall name content, m !! name = Some content ->
    NeedsQuote H content = true -> exists q, Quote H content = inr q.

(** A recorded path names an archive entry. *)
Definition has_entry (fs : list File) (name : string) : Prop :=
  exists f, In f fs /\ Name f = name.

(** What the inner loop does to one entry. *)
Definition patch1 (H : Host) (name content : string) (f : File) : File :=
  if String.eqb (Name f) name then {| Name := Name f; Data := stored H content |} else f.

Definition named (name : string) (f : File) : bool := String.eqb (Name f) name.

(** All the updates, one after the other. *)
Definition patch_in_turn (H : Host) (order : list (string * string)) (fs : list File)
    : list File :=
  foldl (fun fs nc => map (patch1 H nc.1 nc.2) fs) fs order.

End Golden.

(* ===================================================================== *)
(** * The run loop, [Script.run] *)
(* ===================================================================== *)

Module Run.

(** A background command: its process and the expectation recorded for it
    ([neg]: 0 must succeed, 1 must fail, -1 either). *)
Record backgroundCmd : Type := { cmd : nat; neg : Z }.

(** What the run does to processes. *)
Inductive event : Type :=
| Interrupt (p : nat)    (* interruptProcess(bg.cmd.Process) *)
| Await (p : nat).       (* <-bg.wait *)

(** The fields of [Script] the run loop works on. *)
Record Script : Type := MkScript {
  lineno : Z;
  line : string;
  log : string;
  mark : Z;
  started : bool;                    (* !ts.start.IsZero() *)
  stopped : bool;
  vars : Env.vars;
  background : list backgroundCmd;
  events : list event;
  https : Http.hstate;
  golden : Golden.gstate
}.

Definition set_lineno (n : Z) (ts : Script) : Script :=
  MkScript n (line ts) (log ts) (mark ts) (started ts) (stopped ts) (vars ts)
           (background ts) (events ts) (https ts) (golden ts).
Definition set_line (l : string) (ts : Script) : Script :=
  MkScript (lineno ts) l (log ts) (mark ts) (started ts) (stopped ts) (vars ts)
           (background ts) (events ts) (https ts) (golden ts).
Definition set_log (l : string) (ts : Script) : Script :=
  MkScript (lineno ts) (line ts) l (mark ts) (started ts) (stopped ts) (vars ts)
           (background ts) (events ts) (https ts) (golden ts).
Definition set_mark (m : Z) (ts : Script) : Script :=
  MkScript (lineno ts) (line ts) (log ts) m (started ts) (stopped ts) (vars ts)
           (background ts) (events ts) (https ts) (golden ts).
Definition set_started (b : bool) (ts : Script) : Script :=
  MkScript (lineno ts) (line ts) (log ts) (mark ts) b (stopped ts) (vars ts)
           (background ts) (events ts) (https ts) (golden ts).
Definition set_vars (v : Env.vars) (ts : Script) : Script :=
  MkScript (lineno ts) (line ts) (log ts) (mark ts) (started ts) (stopped ts) v
           (background ts) (events ts) (https ts) (golden ts).
Definition set_background (b : list backgroundCmd) (ts : Script) : Script :=
  MkScript (lineno ts) (line ts) (log ts) (mark ts) (started ts) (stopped ts) (vars ts)
           b (events ts) (https ts) (golden ts).
Definition add_events (es : list event) (ts : Script) : Script :=
  MkScript (lineno ts) (line ts) (log ts) (mark ts) (started ts) (stopped ts) (vars ts)
           (background ts) (events ts ++ es) (https ts) (golden ts).
Definition set_golden (g : Golden.gstate) (ts : Script) : Script :=
  MkScript (lineno ts) (line ts) (log ts) (mark ts) (started ts) (stopped ts) (vars ts)
           (background ts) (events ts) (https ts) g.

(** A command handler, [func(ts *Script, neg int, args []string)]. *)
Definition command : Type := Script -> Z -> list string -> Script * res unit.

(** The parameters of the run, the facts about the machine, and the code of
    the package that the run loop calls. *)
Record Host : Type := {
  envvarname : string -> string;
  os_Expand : string -> (string -> string) -> string;
  QuoteMeta : string -> string;
  Verbose : bool;
  testWork : bool;
  PhasePrefix : string;
  CommentPrefix : string;
  Short : bool;
  HasExternalNetwork : bool;
  HasLink : bool;
  HasSymlink : bool;
  GOOS : string;
  GOARCH : string;
  KnownArch : string -> bool;
  KnownOS : string -> bool;
  (** [execCache.Do(prog, ...)]: whether [prog] is found on the path. *)
  exec_found : string -> bool;
  (** [params.Condition] *)
  Condition : option (string -> bool * option string);
  (** the builtin table and [params.Cmds] *)
  scriptCmds : string -> option command;
  Cmds : string -> option command;
  (** the seconds printed by [markTime] *)
  elapsed : string;
  (** the line [Fatalf] prints: ["FAIL: %s:%d: %s\n"] for a file, a line
      number and the message of a failure *)
  fmt_FAIL : string -> Z -> failure -> string;
  (** the variables [setup] starts from, and [params.Setup] *)
  seed_vars : list string;
  Setup : option (list string -> list string * option string);
  (** creating the work directory, reading the archive, extracting it *)
  unpack : res Golden.Archive;
  (** [ts.cmdEnv] *)
  cmdEnv : command;
  (** the chain [ts.deferred] as it stands when the run ends *)
  run_deferred : Script -> Script * res unit;
  (** whether a process ends in success *)
  succeeded : nat -> bool;
  golden_host : Golden.Host;
  (** the order in which [range] hands out [ts.scriptUpdates] *)
  range_order : gmap string string -> list (string * string)
}.

(** [ts.Fatalf(...)]: the failure goes to the log, then [FailNow] ends the
    test unit. *)
Definition Fatalf {A : Type} (H : Host) (f : failure) (ts : Script) : Script * res A :=
  (set_log (log ts ++ fmt_FAIL H (Golden.file (golden ts)) (lineno ts) f) ts, Fatal f).

(** [ts.expand(s)] *)
Definition expand (H : Host) (ts : Script) (s : string) : string :=
  os_Expand H s (fun key =>
    let key1 := TrimSuffix key "@R" in
    if negb (len key1 =? len key)
    then QuoteMeta H (Env.Getenv (envvarname H) key1 (vars ts))
    else Env.Getenv (envvarname H) key (vars ts)).

(** [ts.parse(line)], which also sets [ts.line]. *)
Definition parse (H : Host) (l : string) (ts : Script) : Script * res (list string) :=
  (set_line l ts, Parse.parse (expand H ts) l).

(** [ts.condition(cond)] *)
Definition condition (H : Host) (cond : string) : res (bool * option string) :=
  if String.eqb cond "short" then Ret (Short H, None)
  else if String.eqb cond "net" then Ret (HasExternalNetwork H, None)
  else if String.eqb cond "link" then Ret (HasLink H, None)
  else if String.eqb cond "symlink" then Ret (HasSymlink H, None)
  else if String.eqb cond (GOOS H) || String.eqb cond (GOARCH H) then Ret (true, None)
  else if KnownArch H cond || KnownOS H cond then Ret (false, None)
  else if HasPrefix cond "exec:" then Ret (exec_found H (slice cond 5 (len cond)), None)
  else match Condition H with
       | Some f => Ret (f cond)
       | None => Fatal (UnknownCondition cond)
       end.

(** A guard, [args[0]] with its brackets: the polarity asked for and the
    condition's name. *)
Definition is_guard (a : string) : bool := HasPrefix a "[" && HasSuffix a "]".

Definition guard_want (a : string) : bool :=
  negb (HasPrefix (TrimSpace (slice a 1 (len a - 1))) "!").

Definition guard_cond (a : string) : string :=
  let cond := TrimSpace (slice a 1 (len a - 1)) in
  if HasPrefix cond "!" then TrimSpace (slice cond 1 (len cond)) else cond.

(** How the guard loop ends when it does not fail: the command is run on
    what is left of the line, or the line is skipped. *)
Inductive gated : Type :=
| Proceed (args : list string)
| Skip.

(** The loop [for strings.HasPrefix(args[0], "[") && strings.HasSuffix(args[0], "]")]. *)
Fixpoint guards (H : Host) (args : list string) : res gated :=
  match args with
  | [] => Panic "index out of range [0] with length 0"
  | a0 :: rest =>
      if is_guard a0 then
        match rest with
        | [] => Fatal MissingCommand
        | _ :: _ =>
            match condition H (guard_cond a0) with
            | Ret (ok, Some e) => Fatal (BadCondition (guard_cond a0) e)
            | Ret (ok, None) =>
                if negb (Bool.eqb ok (guard_want a0)) then Ret Skip
                else guards H rest
            | Fatal f => Fatal f
            | Panic p => Panic p
            end
        end
      else Ret (Proceed args)
  end.

(** The prefixes [!] and [?]. *)
Definition negation (args : list string) : res (Z * list string) :=
  match args with
  | [] => Panic "index out of range [0] with length 0"
  | a0 :: rest =>
      if String.eqb a0 "!" then
        match rest with [] => Fatal BangAlone | _ :: _ => Ret (1, rest) end
      else if String.eqb a0 "?" then
        match rest with [] => Fatal QuestionAlone | _ :: _ => Ret (-1, rest) end
      else Ret (0, args)
  end.

(** Looking the command up and calling it. *)
Definition dispatch (H : Host) (n : Z) (args : list string) (ts : Script)
    : Script * res unit :=
  match args with
  | [] => (ts, Panic "index out of range [0] with length 0")
  | name :: rest =>
      match scriptCmds H name with
      | Some c => c ts n rest
      | None =>
          match Cmds H name with
          | Some c => c ts n rest
          | None => Fatalf H (UnknownCommand name) ts
          end
      end
  end.

(** [rewind] and [markTime], the two closures of [run]. *)
Definition rewind (H : Host) (ts : Script) : Script :=
  if negb (Verbose H) then set_log (slice (log ts) 0 (mark ts)) ts else ts.

Definition markTime (H : Host) (ts : Script) : Script :=
  let ts1 :=
    if (0 <? mark ts) && started ts then
      set_log (slice (log ts) 0 (mark ts - 1) ++ " (" ++ elapsed H ++ "s)" ++ Http.nl
               ++ slice (log ts) (mark ts) (len (log ts))) ts
    else ts in
  set_started false ts1.

(** A line that starts a phase. *)
Definition phase (H : Host) (l : string) (ts : Script) : Script :=
  let ts1 := if mark ts <? len (log ts) then markTime H (rewind H ts) else ts in
  let ts2 := set_log (log ts1 ++ l ++ Http.nl) ts1 in
  set_started true (set_mark (len (log ts2)) ts2).

(** How one turn of the [Script:] loop ends when it does not fail. *)
Inductive flow : Type :=
| Next     (* continue Script, or the end of the loop body *)
| Stop.    (* break: the command asked the script to stop *)

(** One turn of the [Script:] loop, on one line of the script. *)
Definition run_line (H : Host) (l : string) (ts : Script) : Script * res flow :=
  let ts := set_lineno (lineno ts + 1) ts in
  if HasPrefix l (PhasePrefix H) then (phase H l ts, Ret Next)
  else if HasPrefix l (CommentPrefix H) then (ts, Ret Next)
  else
    match parse H l ts with
    | (ts, Ret []) => (ts, Ret Next)
    | (ts, Ret args) =>
        let ts := set_log (log ts ++ "> " ++ l ++ Http.nl) ts in
        match guards H args with
        | Ret Skip => (ts, Ret Next)
        | Ret (Proceed args) =>
            match negation args with
            | Ret (n, args) =>
                match dispatch H n args ts with
                | (ts', Ret _) => (ts', Ret (if stopped ts' then Stop else Next))
                | (ts', Fatal f) => (ts', Fatal f)
                | (ts', Panic p) => (ts', Panic p)
                end
            | Fatal f => Fatalf H f ts
            | Panic p => (ts, Panic p)
            end
        | Fatal f => Fatalf H f ts
        | Panic p => (ts, Panic p)
        end
    | (ts, Fatal f) => Fatalf H f ts
    | (ts, Panic p) => (ts, Panic p)
    end.

(** The lines the loop takes off the script one after the other: the text
    up to each newline; nothing is left after a final newline. *)
Fixpoint script_lines (s : string) : list string :=
  match s with
  | EmptyString => []
  | String c s' =>
      if Ascii.eqb c "010" then EmptyString :: script_lines s'
      else match script_lines s' with
           | [] => [String c EmptyString]
           | l :: ls => String c l :: ls
           end
  end.

(** The [Script:] loop. *)
Fixpoint run_lines (H : Host) (ls : list string) (ts : Script) : Script * res unit :=
  match ls with
  | [] => (ts, Ret tt)
  | l :: rest =>
      match run_line H l ts with
      | (ts', Ret Next) => run_lines H rest ts'
      | (ts', Ret Stop) => (ts', Ret tt)
      | (ts', Fatal f) => (ts', Fatal f)
      | (ts', Panic p) => (ts', Panic p)
      end
  end.

Definition interrupt_all (ts : Script) : Script :=
  add_events (map (fun bg => Interrupt (cmd bg)) (background ts)) ts.

Definition await_all (ts : Script) : Script :=
  add_events (map (fun bg => Await (cmd bg)) (background ts)) ts.

(** Whether the way a process ended goes against what was recorded for it. *)
Definition disagrees (H : Host) (bg : backgroundCmd) : bool :=
  if neg bg =? 0 then negb (succeeded H (cmd bg))
  else if neg bg =? 1 then succeeded H (cmd bg)
  else false.

(** Modelled from the spec: [cmdWait], the handler of the wait command, is
    in a file of the package that is not among the sources. The spec:
    an explicit wait command drains the active list; any process whose
    actual success or failure disagrees with its recorded expectation is a
    command failure; regardless of outcome every entry is removed from the
    active list afterward. *)
Definition cmdWait (H : Host) (ts : Script) : Script * res unit :=
  let ts1 := set_background [] (await_all ts) in
  if existsb (disagrees H) (background ts)
  then (ts1, Fatal (CommandFailed "unexpected outcome of a background command"))
  else (ts1, Ret tt).

(** The first deferred function of [run], the last to run. *)
Definition teardown (H : Host) (ts : Script) : Script * res unit :=
  let ts1 := interrupt_all ts in
  let ts2 := await_all ts1 in
  let ts3 := set_background [] ts2 in
  (markTime H ts3, Ret tt).

(** The end of [setup]: the hook, then the variables and their map. *)
Definition setup (H : Host) (ts : Script) : Script * res string :=
  match unpack H with
  | Ret a =>
      let g := golden ts in
      let ts1 := set_golden (Golden.GState (Golden.file g) a (Golden.scriptUpdates g)
                                           (Golden.written g) (Golden.glog g)) ts in
      let '(vs, e) := match Setup H with
                      | Some hook => hook (seed_vars H)
                      | None => (seed_vars H, None)
                      end in
      match e with
      | Some msg => Fatalf H (CheckFailed msg) ts1
      | None => (set_vars (Env.setup_vars (envvarname H) vs) ts1, Ret (Golden.Comment a))
      end
  | Fatal f => Fatalf H f ts
  | Panic p => (ts, Panic p)
  end.

(** [run] from the loop to [PASS]. *)
Definition run_script (H : Host) (script : string) (ts : Script) : Script * res unit :=
  match run_lines H (script_lines script) ts with
  | (ts1, Ret _) =>
      match cmdWait H (interrupt_all ts1) with
      | (ts2, Ret _) =>
          let ts3 := markTime H (rewind H ts2) in
          (if stopped ts3 then ts3 else set_log (log ts3 ++ "PASS" ++ Http.nl) ts3, Ret tt)
      | (ts2, r) => (ts2, r)
      end
  | (ts1, r) => (ts1, r)
  end.

(** How the run ends when two of its parts ended [r1] and then [r2]: a
    panic brings the process down, a failed test stays failed. *)
Definition and_then (r1 r2 : res unit) : res unit :=
  match r1, r2 with
  | Panic p, _ => Panic p
  | _, Panic p => Panic p
  | Fatal f, _ => Fatal f
  | _, Fatal f => Fatal f
  | Ret _, Ret _ => Ret tt
  end.

(** The deferred [ts.applyScriptUpdates()]; its [Logf] writes to [ts.log]. *)
Definition apply_updates_deferred (H : Host) (ts : Script) : Script * res unit :=
  let g0 := golden ts in
  let '(g, r) := Golden.applyScriptUpdates (golden_host H)
                   (range_order H (Golden.scriptUpdates g0))
                   (Golden.GState (Golden.file g0) (Golden.archive g0)
                      (Golden.scriptUpdates g0) (Golden.written g0) (log ts)) in
  (set_log (Golden.glog g) (set_golden g ts), r).

(** [ts.run()]: the body, then the deferred calls, last registered first;
    they run however the body ended. *)
Definition run (H : Host) (ts : Script) : Script * res unit :=
  let '(ts1, r1) := setup H ts in
  let '(ts2, r2) :=
    match r1 with
    | Ret script =>
        let '(ts', r') :=
          if testWork H || Verbose H then
            match cmdEnv H ts1 0 [] with
            | (t, Ret _) =>
                let t1 := set_log (log t ++ Http.nl) t in
                (set_mark (len (log t1)) t1, Ret tt)
            | (t, r) => (t, r)
            end
          else (ts1, Ret tt) in
        match r' with
        | Ret _ =>
            (* defer ts.applyScriptUpdates(), then the loop *)
            let '(ts'', r'') := run_script H script ts' in
            let '(ts3, r3) := apply_updates_deferred H ts'' in
            (ts3, and_then r'' r3)
        | _ => (ts', r')
        end
    | Fatal f => (ts1, Fatal f)
    | Panic p => (ts1, Panic p)
    end in
  let '(ts4, r4) := run_deferred H ts2 in
  let '(ts5, r5) := teardown H ts4 in
  (ts5, and_then (and_then r2 r4) r5).

(** A guard whose condition evaluates, without error, to the polarity it
    asks for. *)
Definition agrees (H : Host) (a : string) : Prop :=
  is_guard a = true /\ condition H (guard_cond a) = Ret (guard_want a, None).

(** A guard whose condition evaluates, without error, against the polarity
    it asks for. *)
Definition disagreeing (H : Host) (a : string) : Prop :=
  is_guard a = true /\ condition H (guard_cond a) = Ret (negb (guard_want a), None).

(** A line without a newline in it. *)
Fixpoint has_byte (c : ascii) (s : string) : bool :=
  match s with
  | EmptyString => false
  | String x s' => Ascii.eqb x c || has_byte c s'
  end.

Definition no_newline (l : string) : Prop := has_byte "010" l = false.

(** ** The loop head, the deferred chain *)

(** The head of the [Script:] loop: the text up to the first newline and the
    text after it, or the whole text and nothing when there is no newline. *)
Definition cut_line (script : string) : string * string :=
  let i := Index script Http.nl in
  if 0 <=? i then (slice script 0 i, slice script (i + 1) (len script))
  else (script, EmptyString).

(** Whether the last byte of a text is a newline. *)
Fixpoint ends_in_newline (s : string) : bool :=
  match s with
  | EmptyString => false
  | String c r =>
      match r with
      | EmptyString => Ascii.eqb c "010"
      | String _ _ => ends_in_newline r
      end
  end.

(** A deferred call. *)
Definition action : Type := Script -> Script * res unit.

(** [ts.deferred] as [RunT] sets it: [func() {}]. *)
Definition no_deferred : action := fun ts => (ts, Ret tt).

(** [ts.Defer(f)]: the new chain is [func() { defer old(); f() }], so [f]
    runs and then, however [f] ended, the chain that was there. *)
Definition Defer (f : action) (old : action) : action :=
  fun ts =>
    let '(ts1, r1) := f ts in
    let '(ts2, r2) := old ts1 in
    (ts2, and_then r1 r2).

(** The chain after [Defer] was called with each of [fs], first to last. *)
Definition deferred_after (fs : list action) : action :=
  foldl (fun old f => Defer f old) no_deferred fs.

(** Calls made one after the other, each one made however the one before
    ended. *)
Fixpoint in_turn (fs : list action) : action :=
  match fs with
  | [] => no_deferred
  | f :: rest =>
      fun ts =>
        let '(ts1, r1) := f ts in
        let '(ts2, r2) := in_turn rest ts1 in
        (ts2, and_then r1 r2)
  end.

End Run.

(* ===================================================================== *)
(** * The parameters of a run, [paramDefaults] *)
(* ===================================================================== *)

Module Params.

(** The fields of [Params] that [paramDefaults] looks at. *)
Record t : Type := {
  Dir : string;
  Glob : string;
  PhasePrefix : string;
  CommentPrefix : string
}.

(** [paramDefaults(p)] *)
Definition paramDefaults (p : t) : t :=
  {| Dir := Dir p;
     Glob := if String.eqb (Glob p) EmptyString then "*.hls" else Glob p;
     PhasePrefix := if String.eqb (PhasePrefix p) EmptyString then "#" else PhasePrefix p;
     CommentPrefix := if String.eqb (CommentPrefix p) EmptyString then "~" else CommentPrefix p |}.

End Params.

(* ===================================================================== *)
(** * A sample host, to run the definitions on *)
(* ===================================================================== *)

Module Samples.

(** An archive package in the manner of txtar: data whose first line looks
    like a file marker needs quoting, and only data that ends in a newline
    can be quoted. *)
Definition golden_host : Golden.Host :=
  {| Golden.NeedsQuote := fun d => HasPrefix d "-- ";
     Golden.Quote := fun d =>
       if HasSuffix d Http.nl then inr (">" ++ d)
       else inl "data has no final newline";
     Golden.Format := fun a =>
       Golden.Comment a ++
       String.concat EmptyString
         (map (fun f => "-- " ++ Golden.Name f ++ " --" ++ Http.nl ++ Golden.Data f)
              (Golden.Files a));
     Golden.WriteFile := fun _ _ => None |}.

Definition no_golden : Golden.gstate :=
  Golden.GState "t.hls" {| Golden.Comment := EmptyString; Golden.Files := [] |} ∅ []
                EmptyString.

(** The message of a failure, for the log. *)
Definition failure_text (f : failure) : string :=
  match f with
  | UnterminatedQuote => "unterminated quoted argument"
  | MissingCommand => "missing command after condition"
  | BadCondition c e => "bad condition " ++ c ++ ": " ++ e
  | UnknownCondition c => "unknown condition " ++ c
  | BangAlone => "! on line by itself"
  | QuestionAlone => "? on line by itself"
  | UnknownCommand n => "unknown command " ++ n
  | CheckFailed e => e
  | HttpClientUsage => "usage: http client <op> args..."
  | UnknownHttpClient n => "unknown http client " ++ n
  | RetryUsage => "http retry usage: RETRY:'<count> <timer> [codes...]'"
  | CannotUpdateFile n e => "cannot update script file " ++ n ++ ": " ++ e
  | CannotUpdateScript e => "cannot update script: " ++ e
  | CommandFailed m => m
  end.

(** A command that writes its arguments to the log, and one that fails. *)
Definition echo : Run.command :=
  fun ts _ args => (Run.set_log (Run.log ts ++ String.concat " " args ++ Http.nl) ts, Ret tt).

Definition failing : Run.command :=
  fun ts _ _ => (ts, Fatal (CommandFailed "exit status 1")).

Definition host : Run.Host :=
  {| Run.envvarname := fun k => k;
     Run.os_Expand := fun s _ => s;
     Run.QuoteMeta := fun s => s;
     Run.Verbose := false;
     Run.testWork := false;
     Run.PhasePrefix := "#";
     Run.CommentPrefix := "~";
     Run.Short := true;
     Run.HasExternalNetwork := true;
     Run.HasLink := true;
     Run.HasSymlink := true;
     Run.GOOS := "linux";
     Run.GOARCH := "amd64";
     Run.KnownArch := fun a => String.eqb a "arm64";
     Run.KnownOS := fun o => String.eqb o "windows";
     Run.exec_found := fun _ => false;
     Run.Condition := None;
     Run.scriptCmds := fun name =>
       if String.eqb name "echo" then Some echo
       else if String.eqb name "exec" then Some failing
       else None;
     Run.Cmds := fun _ => None;
     Run.elapsed := "0.001";
     Run.fmt_FAIL := fun file n f =>
       "FAIL: " ++ file ++ ":" ++ pretty n ++ ": " ++ failure_text f ++ Http.nl;
     Run.seed_vars := ["WORK=/tmp/w"; "PATH=/bin"];
     Run.Setup := None;
     Run.unpack := Ret {| Golden.Comment := EmptyString; Golden.Files := [] |};
     Run.cmdEnv := fun ts _ _ => (ts, Ret tt);
     Run.run_deferred := fun ts => (ts, Ret tt);
     Run.succeeded := fun _ => false;
     Run.golden_host := golden_host;
     Run.range_order := map_to_list |}.

Definition script0 : Run.Script :=
  {| Run.lineno := 0; Run.line := EmptyString; Run.log := EmptyString; Run.mark := 0;
     Run.started := false; Run.stopped := false;
     Run.vars := Env.setup_vars (fun k => k) ["WORK=/tmp/w"; "PATH=/bin"];
     Run.background := []; Run.events := [];
     Run.https := Http.HState ∅ ∅;
     Run.golden := no_golden |}.

(** An archive with one expected output, and an update recorded for it. *)
Definition golden1 (content : string) : Golden.gstate :=
  Golden.GState "t.hls"
    {| Golden.Comment := "cmp stdout want" ++ Http.nl;
       Golden.Files := [ {| Golden.Name := "want"; Golden.Data := "old" ++ Http.nl |} ] |}
    {[ "want" := content ]} [] EmptyString.

(** A sample [ts.expand] that shows where expansion was applied. *)
Definition mark_expand (s : string) : string := "<" ++ s ++ ">".

(** The state of the parse loop on the line [echo x'Don''t $x # y'z] after
    the six turns that bring it to the opening quote. *)
Definition at_opening_quote : Parse.pstate :=
  {| Parse.args := ["<echo>"]; Parse.arg := EmptyString; Parse.start := 5;
     Parse.quoted := false; Parse.idx := 6 |}.

(** The error text of a connection closed by a GOAWAY frame. *)
Definition goaway_error : string :=
  "http2: server sent GOAWAY and closed the connection; LastStreamID=1, ErrCode=NO_ERROR".

(** A host for the request code: one readable file, small numbers, and a
    server that answers 200. *)
Definition http_host : Http.Host :=
  {| Http.ReadFile := fun f =>
       if String.eqb f "body.json" then Ret "{}"
       else Fatal (CheckFailed "open: no such file or directory");
     Http.Atoi := fun s =>
       if String.eqb s "3" then inr 3
       else if String.eqb s "502" then inr 502
       else inl "strconv.Atoi: invalid syntax";
     Http.ParseDuration := fun s =>
       if String.eqb s "1s" then inr 1000000000 else inl "time: invalid duration";
     Http.End_ := fun a => (a, (Some {| Http.StatusCode := 200 |}, "ok", [])) |}.

(** A registry with the client [api], whose template sits at location 1. *)
Definition api_template : Http.SuperAgent :=
  {| Http.Method := "GET"; Http.Url := "http://x"; Http.Calls := [] |}.

Definition one_client : Http.hstate :=
  {| Http.httpClients := {[ "api" := 1%positive ]};
     Http.heap := {[ 1%positive := api_template ]} |}.

End Samples.

(* ===================================================================== *)
(** * Facts about Go strings *)
(* ===================================================================== *)

Module StrFacts.

Lemma app_nil_l (s : string) : EmptyString ++ s = s.
Proof. reflexivity. Qed.

Lemma app_cons (c : ascii) (a b : string) : String c a ++ b = String c (a ++ b).
Proof. reflexivity. Qed.

Lemma app_nil_r (s : string) : s ++ EmptyString = s.
Proof. induction s as [|c s IH]; [reflexivity|]. rewrite app_cons, IH. reflexivity. Qed.

Lemma app_assoc (a b c : string) : (a ++ b) ++ c = a ++ (b ++ c).
Proof.
  induction a as [|x a IH]; [reflexivity|].
  rewrite !app_cons, IH. reflexivity.
Qed.

Lemma length_app (a b : string) :
  String.length (a ++ b) = (String.length a + String.length b)%nat.
Proof.
  induction a as [|x a IH]; [reflexivity|].
  rewrite app_cons. simpl. rewrite IH. reflexivity.
Qed.

Lemma len_app (a b : string) : len (a ++ b) = len a + len b.
Proof. unfold len. rewrite length_app. lia. Qed.

Lemma len_cons (c : ascii) (a : string) : len (String c a) = 1 + len a.
Proof. unfold len. simpl String.length. lia. Qed.

Lemma len_nil : len EmptyString = 0.
Proof. reflexivity. Qed.

Lemma len_nonneg (a : string) : 0 <= len a.
Proof. unfold len. lia. Qed.

(** The byte just after a prefix. *)
Lemma at_app_here (a : string) (c : ascii) (b : string) :
  at_ (a ++ String c b) (len a) = Some c.
Proof.
  unfold at_, len. destruct (Z.ltb_spec (Z.of_nat (String.length a)) 0); [lia|].
  rewrite Nat2Z.id.
  induction a as [|x a IH]; [reflexivity|].
  rewrite app_cons. simpl. apply IH. lia.
Qed.

Lemma at_app_end (a : string) : at_ a (len a) = None.
Proof.
  unfold at_, len. destruct (Z.ltb_spec (Z.of_nat (String.length a)) 0); [reflexivity|].
  rewrite Nat2Z.id. clear.
  induction a as [|x a IH]; [reflexivity|]. simpl. exact IH.
Qed.

Lemma at_is_here (a : string) (c d : ascii) (b : string) :
  at_is (a ++ String c b) (len a) d = Ascii.eqb c d.
Proof. unfold at_is. rewrite at_app_here. reflexivity. Qed.

Lemma substring_app_drop (a b : string) (n : nat) :
  String.substring (String.length a) n (a ++ b) = String.substring 0 n b.
Proof.
  induction a as [|x a IH]; [reflexivity|].
  rewrite app_cons. simpl. exact IH.
Qed.

Lemma substring_prefix (b c : string) :
  String.substring 0 (String.length b) (b ++ c) = b.
Proof.
  induction b as [|x b IH]; [destruct c; reflexivity|].
  rewrite app_cons. simpl. rewrite IH. reflexivity.
Qed.

(** [line[len(a) : len(a)+len(b)]] of [a ++ b ++ c] is [b]. *)
Lemma slice_app_mid (a b c : string) :
  slice (a ++ b ++ c) (len a) (len a + len b) = b.
Proof.
  unfold slice, len.
  replace (Z.of_nat (String.length a) + Z.of_nat (String.length b)
           - Z.of_nat (String.length a)) with (Z.of_nat (String.length b)) by lia.
  rewrite !Nat2Z.id, substring_app_drop. apply substring_prefix.
Qed.

Lemma substring_zero (s : string) : forall n, String.substring n 0 s = EmptyString.
Proof. induction s as [|c s IH]; intros [|n]; simpl; auto. Qed.

Lemma slice_empty (s : string) (i : Z) : slice s i i = EmptyString.
Proof. unfold slice. rewrite Z.sub_diag. apply substring_zero. Qed.

End StrFacts.

(* ===================================================================== *)
(** * The parser: quoted spans and unterminated quotes *)
(* ===================================================================== *)

Module ParseFacts.
Import StrFacts Parse.

(** The byte at a known place of a line given in pieces. *)
Lemma at_is_split (line A B : string) (c d : ascii) (i : Z) :
  line = A ++ String c B -> i = len A -> at_is line i d = Ascii.eqb c d.
Proof. intros -> ->. apply at_is_here. Qed.

(** The four turns the loop can take on a quote or inside quotes. *)
Lemma step_inside (expand : string -> string) (line : string) (st : pstate) (x : ascii) :
  quoted st = true -> idx st < len line ->
  at_is line (idx st) "'" = false -> 0 <= start st ->
  parse_step expand line st =
    Continue (PState (args st) (arg st) (start st) true (idx st + 1)).
Proof.
  intros Hq Hlt Hat Hs. unfold parse_step. rewrite Hq. simpl.
  destruct (Z.leb_spec (len line) (idx st)); [lia|].
  rewrite Hat.
  destruct (Z.ltb_spec (start st) 0); [lia|]. reflexivity.
Qed.

Lemma step_doubled (expand : string -> string) (line : string) (st : pstate) :
  quoted st = true -> idx st + 1 < len line ->
  at_is line (idx st) "'" = true -> at_is line (idx st + 1) "'" = true ->
  parse_step expand line st =
    Continue (PState (args st) (arg st ++ slice line (start st) (idx st))
                     (idx st + 1) true (idx st + 1 + 1)).
Proof.
  intros Hq Hlt Hat Hat'. unfold parse_step. rewrite Hq. simpl.
  destruct (Z.leb_spec (len line) (idx st)); [lia|].
  rewrite Hat, Hat'.
  destruct (Z.ltb_spec (idx st + 1) (len line)); [|lia]. reflexivity.
Qed.

Lemma step_close (expand : string -> string) (line : string) (st : pstate) :
  quoted st = true -> idx st < len line ->
  at_is line (idx st) "'" = true ->
  (idx st + 1 <? len line) && at_is line (idx st + 1) "'" = false ->
  parse_step expand line st =
    Continue (PState (args st) (arg st ++ slice line (start st) (idx st))
                     (idx st + 1) false (idx st + 1)).
Proof.
  intros Hq Hlt Hat Hat'. unfold parse_step. rewrite Hq. simpl.
  destruct (Z.leb_spec (len line) (idx st)); [lia|].
  rewrite Hat, Hat'. reflexivity.
Qed.

Lemma step_open (expand : string -> string) (line : string) (st : pstate) :
  quoted st = false -> idx st < len line ->
  at_is line (idx st) "'" = true ->
  parse_step expand line st =
    Continue (PState (args st) (arg st ++ pending expand line st)
                     (idx st + 1) true (idx st + 1)).
Proof.
  intros Hq Hlt Hat. unfold parse_step, is_sep. rewrite Hq. simpl.
  destruct (Z.leb_spec (len line) (idx st)); [lia|]. simpl.
  unfold at_is in *. destruct (at_ line (idx st)) as [y|]; [|discriminate].
  apply Ascii.eqb_eq in Hat. subst y. simpl.
  unfold pending. destruct (0 <=? start st); [reflexivity|].
  rewrite app_nil_r. reflexivity.
Qed.

(** From just after the opening quote (or after a doubled quote, with the
    chunk [c] collected so far) to just after the closing quote. *)
Lemma quoted_body_steps (expand : string -> string) (s : string) :
  forall (A0 c post : string) (st : pstate),
    starts_with_quote post = false ->
    start st = len A0 -> idx st = len A0 + len c -> quoted st = true ->
    parse_steps expand (S (String.length s))
                (A0 ++ c ++ quote_body s ++ String "'" post) st =
    Continue (PState (args st) (arg st ++ c ++ s)
                (len A0 + len c + len (quote_body s) + 1) false
                (len A0 + len c + len (quote_body s) + 1)).
Proof.
  induction s as [|x s IH]; intros A0 c post st Hpost Hst Hidx Hq.
  - cbn [String.length parse_steps quote_body]. rewrite app_nil_l.
    set (line := A0 ++ c ++ String "'" post).
    assert (Hline : line = (A0 ++ c) ++ String "'" post) by (unfold line; rewrite app_assoc; reflexivity).
    assert (Hlen : len line = len A0 + len c + 1 + len post).
    { rewrite Hline, !len_app, len_cons. lia. }
    pose proof (len_nonneg post) as Hp.
    rewrite step_close; try assumption.
    + rewrite Hst, Hidx. unfold line. rewrite slice_app_mid.
      rewrite len_nil, app_nil_r. do 2 f_equal; lia.
    + lia.
    + apply (at_is_split _ (A0 ++ c) post "'"); [exact Hline|rewrite len_app; lia].
    + destruct post as [|y post'].
      * rewrite len_nil in Hlen. destruct (Z.ltb_spec (idx st + 1) (len line)); [lia|reflexivity].
      * rewrite (at_is_split line ((A0 ++ c) ++ String "'" EmptyString) post' y "'").
        -- simpl in Hpost. rewrite Hpost. apply andb_false_r.
        -- rewrite Hline, !app_assoc. reflexivity.
        -- rewrite !len_app, len_cons, len_nil. lia.
  - cbn [String.length quote_body]. 
    change (parse_steps expand (S (S (String.length s))) ?l st)
      with (match parse_step expand l st with
            | Continue st' => parse_steps expand (S (String.length s)) l st'
            | t => t end).
    destruct (Ascii.eqb x "'") eqn:Hx.
    + apply Ascii.eqb_eq in Hx. subst x.
      set (line := A0 ++ c ++ String "'" (String "'" (quote_body s)) ++ String "'" post).
      assert (Hline : line = (A0 ++ c) ++ String "'" (String "'" (quote_body s ++ String "'" post))).
      { unfold line. rewrite app_assoc, !app_cons. reflexivity. }
      assert (Hlen : len line = len A0 + len c + 2 + len (quote_body s) + 1 + len post).
      { rewrite Hline, !len_app, !len_cons, len_app, len_cons. lia. }
      pose proof (len_nonneg post) as Hp. pose proof (len_nonneg (quote_body s)) as Hb.
      rewrite step_doubled; try assumption.
      * specialize (IH ((A0 ++ c) ++ String "'" EmptyString) (String "'" EmptyString) post
                       (PState (args st) (arg st ++ slice line (start st) (idx st))
                         (idx st + 1) true (idx st + 1 + 1)) Hpost).
        replace (((A0 ++ c) ++ String "'" EmptyString) ++ String "'" EmptyString ++ quote_body s ++ String "'" post)
          with line in IH.
        2:{ rewrite Hline, !app_assoc, !app_cons, !app_nil_l. reflexivity. }
        rewrite IH.
        -- cbn [args arg]. rewrite Hst, Hidx. unfold line. rewrite slice_app_mid.
           rewrite !len_app, !len_cons, !len_nil.
           rewrite !app_assoc, !app_cons, !app_nil_l.
           do 2 f_equal; lia.
        -- cbn [start]. rewrite !len_app, len_cons, len_nil. lia.
        -- cbn [idx]. rewrite !len_app, !len_cons, !len_nil. lia.
        -- reflexivity.
      * lia.
      * apply (at_is_split _ (A0 ++ c) (String "'" (quote_body s ++ String "'" post)) "'");
          [exact Hline|rewrite len_app; lia].
      * apply (at_is_split _ ((A0 ++ c) ++ String "'" EmptyString) (quote_body s ++ String "'" post) "'").
        -- rewrite Hline, !app_assoc. reflexivity.
        -- rewrite !len_app, len_cons, len_nil. lia.
    + set (line := A0 ++ c ++ String x (quote_body s) ++ String "'" post).
      assert (Hline : line = (A0 ++ c) ++ String x (quote_body s ++ String "'" post)).
      { unfold line. rewrite app_assoc, !app_cons. reflexivity. }
      assert (Hlen : len line = len A0 + len c + 1 + len (quote_body s) + 1 + len post).
      { rewrite Hline, !len_app, !len_cons, len_app, len_cons. lia. }
      pose proof (len_nonneg post) as Hp. pose proof (len_nonneg (quote_body s)) as Hb.
      pose proof (len_nonneg A0) as Ha. pose proof (len_nonneg c) as Hc.
      rewrite (step_inside expand line st x); try assumption.
      * specialize (IH A0 (c ++ String x EmptyString) post
                       (PState (args st) (arg st) (start st) true (idx st + 1)) Hpost).
        replace (A0 ++ (c ++ String x EmptyString) ++ quote_body s ++ String "'" post)
          with line in IH.
        2:{ unfold line. rewrite !app_assoc, !app_cons, !app_nil_l. reflexivity. }
        rewrite IH.
        -- cbn [args arg]. rewrite !len_app, !len_cons, !len_nil.
           rewrite !app_assoc, !app_cons, !app_nil_l.
           do 2 f_equal; lia.
        -- exact Hst.
        -- cbn [idx]. rewrite !len_app, !len_cons, !len_nil. lia.
        -- reflexivity.
      * lia.
      * rewrite (at_is_split line (A0 ++ c) (quote_body s ++ String "'" post) x "'");
          [exact Hx|exact Hline|rewrite len_app; lia].
      * lia.
Qed.

(** The opening quote, the body, the closing quote. *)
Lemma span_steps (expand : string -> string) (pre s post : string) (st : pstate) :
  starts_with_quote post = false ->
  idx st = len pre -> quoted st = false ->
  parse_steps expand (S (S (String.length s)))
              (pre ++ String "'" (quote_body s ++ String "'" post)) st =
  Continue (PState (args st)
              (arg st ++ pending expand (pre ++ String "'" (quote_body s ++ String "'" post)) st ++ s)
              (len pre + len (quote_body s) + 2) false
              (len pre + len (quote_body s) + 2)).
Proof.
  intros Hpost Hidx Hq.
  set (line := pre ++ String "'" (quote_body s ++ String "'" post)).
  change (parse_steps expand (S (S (String.length s))) line st)
    with (match parse_step expand line st with
          | Continue st' => parse_steps expand (S (String.length s)) line st'
          | t => t end).
  pose proof (len_nonneg (quote_body s)) as Hb. pose proof (len_nonneg post) as Hp.
  assert (Hlen : len line = len pre + 1 + len (quote_body s) + 1 + len post).
  { unfold line. rewrite len_app, len_cons, len_app, len_cons. lia. }
  rewrite step_open; try assumption.
  - pose proof (quoted_body_steps expand s (pre ++ String "'" EmptyString) EmptyString post
                  (PState (args st) (arg st ++ pending expand line st)
                     (idx st + 1) true (idx st + 1)) Hpost) as IH.
    replace ((pre ++ String "'" EmptyString) ++ EmptyString ++ quote_body s ++ String "'" post)
      with line in IH by (unfold line; rewrite !app_assoc; reflexivity).
    rewrite IH.
    + cbn [args arg]. rewrite !len_app, len_cons, !len_nil, app_nil_l, app_assoc.
      do 2 f_equal; lia.
    + cbn [start]. rewrite len_app, len_cons, len_nil. lia.
    + cbn [idx]. rewrite len_app, len_cons, !len_nil. lia.
    + reflexivity.
  - lia.
  - apply (at_is_split line pre (quote_body s ++ String "'" post) "'"); [reflexivity|assumption].
Qed.

(** Inside a quoted chunk every turn moves on and stays inside, until the
    line ends. *)
Lemma unterminated_steps (expand : string -> string) (s : string) :
  forall (A : string) (st : pstate),
    idx st = len A -> quoted st = true ->
    parse_steps expand (S (String.length s)) (A ++ quote_body s) st =
    Abort UnterminatedQuote.
Proof.
  induction s as [|x s IH]; intros A st Hidx Hq.
  - cbn [String.length parse_steps quote_body]. rewrite app_nil_r.
    unfold parse_step. rewrite Hq, Hidx. simpl.
    rewrite Z.leb_refl. reflexivity.
  - cbn [String.length quote_body].
    change (parse_steps expand (S (S (String.length s))) ?l st)
      with (match parse_step expand l st with
            | Continue st' => parse_steps expand (S (String.length s)) l st'
            | t => t end).
    pose proof (len_nonneg (quote_body s)) as Hb.
    destruct (Ascii.eqb x "'") eqn:Hx.
    + apply Ascii.eqb_eq in Hx. subst x.
      set (line := A ++ String "'" (String "'" (quote_body s))).
      assert (Hlen : len line = len A + 2 + len (quote_body s)).
      { unfold line. rewrite len_app, !len_cons. lia. }
      rewrite step_doubled; try assumption.
      * replace line with ((A ++ String "'" (String "'" EmptyString)) ++ quote_body s)
          by (unfold line; rewrite !app_assoc; reflexivity).
        apply IH; [|reflexivity].
        cbn [idx]. rewrite len_app, !len_cons, len_nil. lia.
      * lia.
      * apply (at_is_split line A (String "'" (quote_body s)) "'"); [reflexivity|assumption].
      * apply (at_is_split line (A ++ String "'" EmptyString) (quote_body s) "'").
        -- unfold line. rewrite !app_assoc. reflexivity.
        -- rewrite len_app, len_cons, len_nil. lia.
    + set (line := A ++ String x (quote_body s)).
      assert (Hlen : len line = len A + 1 + len (quote_body s)).
      { unfold line. rewrite len_app, !len_cons. lia. }
      assert (Hat : at_is line (idx st) "'" = false).
      { rewrite (at_is_split line A (quote_body s) x "'"); [exact Hx|reflexivity|assumption]. }
      unfold parse_step. rewrite Hq. simpl.
      destruct (Z.leb_spec (len line) (idx st)); [lia|].
      rewrite Hat.
      replace line with ((A ++ String x EmptyString) ++ quote_body s)
        by (unfold line; rewrite !app_assoc; reflexivity).
      apply IH; [|reflexivity].
      cbn [idx]. rewrite len_app, len_cons, len_nil. lia.
Qed.

(** Every turn that goes on moves the index forward and keeps it within the
    line. *)
Lemma step_progress (expand : string -> string) (line : string) (st st' : pstate) :
  parse_step expand line st = Continue st' ->
  idx st < idx st' /\ idx st' <= len line.
Proof.
  unfold parse_step.
  destruct (negb (quoted st) && ((len line <=? idx st) || is_sep line (idx st))).
  - destruct (Z.leb_spec (len line) (idx st)); simpl; [discriminate|].
    destruct (at_is line (idx st) "#"); [discriminate|].
    intros [= <-]. cbn [idx]. lia.
  - destruct (Z.leb_spec (len line) (idx st)); [discriminate|].
    destruct (at_is line (idx st) "'").
    + destruct (negb (quoted st)).
      * intros [= <-]. cbn [idx]. lia.
      * destruct (Z.ltb_spec (idx st + 1) (len line)); simpl.
        -- destruct (at_is line (idx st + 1) "'"); intros [= <-]; cbn [idx]; lia.
        -- intros [= <-]. cbn [idx]. lia.
    + intros [= <-]. cbn [idx]. lia.
Qed.

(** The loop ends within as many turns as there are bytes left, plus one. *)
Lemma parse_loop_ends (expand : string -> string) (line : string) :
  forall (fuel : nat) (st : pstate),
    (0 < fuel)%nat -> len line - idx st < Z.of_nat fuel ->
    exists r, parse_loop expand fuel line st = Some r.
Proof.
  induction fuel as [|fuel IH]; intros st Hpos Hfuel; [lia|].
  cbn [parse_loop]. destruct (parse_step expand line st) as [st'| a | f] eqn:Hstep.
  - apply step_progress in Hstep. apply IH; lia.
  - eexists; reflexivity.
  - eexists; reflexivity.
Qed.

(** More fuel does not change the result. *)
Lemma parse_loop_more (expand : string -> string) (line : string) :
  forall (fuel fuel' : nat) (st : pstate) (r : res (list string)),
    parse_loop expand fuel line st = Some r -> (fuel <= fuel')%nat ->
    parse_loop expand fuel' line st = Some r.
Proof.
  induction fuel as [|fuel IH]; intros fuel' st r Hrun Hle; [discriminate|].
  destruct fuel' as [|fuel']; [lia|].
  cbn [parse_loop] in *.
  destruct (parse_step expand line st); [|assumption..].
  apply (IH fuel'); [assumption|lia].
Qed.

(** Turns counted one by one and the loop agree. *)
Lemma parse_steps_loop (expand : string -> string) (line : string) :
  forall (n : nat) (st st' : pstate) (fuel : nat),
    parse_steps expand n line st = Continue st' ->
    parse_loop expand (n + fuel) line st = parse_loop expand fuel line st'.
Proof.
  induction n as [|n IH]; intros st st' fuel Hsteps.
  - injection Hsteps as <-. reflexivity.
  - cbn [parse_steps] in Hsteps. cbn [Nat.add parse_loop].
    destruct (parse_step expand line st); [|discriminate..].
    apply IH. exact Hsteps.
Qed.

Lemma parse_steps_abort (expand : string -> string) (line : string) :
  forall (n : nat) (st : pstate) (f : failure),
    parse_steps expand n line st = Abort f ->
    parse_loop expand n line st = Some (Fatal f).
Proof.
  induction n as [|n IH]; intros st f Hsteps; [discriminate|].
  cbn [parse_steps] in Hsteps. cbn [parse_loop].
  destruct (parse_step expand line st); [|discriminate|].
  - apply IH. exact Hsteps.
  - injection Hsteps as <-. reflexivity.
Qed.

Lemma parse_steps_app (expand : string -> string) (line : string) :
  forall (n m : nat) (st st' : pstate),
    parse_steps expand n line st = Continue st' ->
    parse_steps expand (n + m) line st = parse_steps expand m line st'.
Proof.
  induction n as [|n IH]; intros m st st' Hsteps.
  - injection Hsteps as <-. reflexivity.
  - cbn [parse_steps] in Hsteps. cbn [Nat.add parse_steps].
    destruct (parse_step expand line st); [|discriminate..].
    apply IH. exact Hsteps.
Qed.

(** [parse] always comes to an end: its fuel is enough. *)
Lemma parse_loop_total (expand : string -> string) (line : string) :
  parse_loop expand (S (String.length line)) line init = Some (parse expand line).
Proof.
  unfold parse.
  destruct (parse_loop_ends expand line (S (String.length line)) init) as [r Hr].
  - lia.
  - cbn [idx init]. unfold len. lia.
  - rewrite Hr. reflexivity.
Qed.

(** A line on which the loop aborts after some turns is a line [parse]
    fails on. *)
Lemma parse_aborts (expand : string -> string) (line : string) (n : nat) (f : failure) :
  parse_steps expand n line init = Abort f -> parse expand line = Fatal f.
Proof.
  intros Hsteps. apply parse_steps_abort in Hsteps.
  pose proof (parse_loop_total expand line) as Htot.
  assert (n <= S (String.length line) \/ S (String.length line) <= n)%nat as [Hle|Hle] by lia.
  - apply (parse_loop_more _ _ _ _ _ _ Hsteps) in Hle. congruence.
  - apply (parse_loop_more _ _ _ _ _ _ Htot) in Hle. congruence.
Qed.

Example parse_mixed_line :
  parse Samples.mark_expand "echo 'Don''t $x # y'z  $HOME # c"
  = Ret ["<echo>"; "Don't $x # y<z>"; "<$HOME>"].
Proof. vm_compute. reflexivity. Qed.

Example parse_only_quotes : parse Samples.mark_expand "''''" = Ret ["'<>"].
Proof. vm_compute. reflexivity. Qed.

Example parse_unterminated : parse Samples.mark_expand "echo 'unterminated" = Fatal UnterminatedQuote.
Proof. vm_compute. reflexivity. Qed.

Example parse_quote_in_comment : parse Samples.mark_expand "echo hi # don't" = Ret ["<echo>"; "<hi>"].
Proof. vm_compute. reflexivity. Qed.

(** The turn after a span that ends its argument. *)
Lemma step_after_span (expand : string -> string) (pre post : string)
    (a : list string) (g : string) :
  ends_arg post = true ->
  turn_args (parse_step expand (pre ++ post)
               {| args := a; arg := g; start := len pre; quoted := false; idx := len pre |})
  = app a [g ++ expand EmptyString].
Proof.
  intros Hends. unfold parse_step. cbn [quoted idx start args arg negb andb].
  pose proof (len_nonneg pre) as Hpre.
  destruct (Z.leb_spec 0 (len pre)); [|lia].
  rewrite slice_empty.
  destruct post as [|c post'].
  - rewrite app_nil_r, Z.leb_refl. reflexivity.
  - unfold is_sep. rewrite !at_is_here.
    assert (Hlen : len (pre ++ String c post') = len pre + 1 + len post').
    { rewrite len_app, len_cons. lia. }
    pose proof (len_nonneg post').
    destruct (Z.leb_spec (len (pre ++ String c post')) (len pre)); [lia|].
    cbn [ends_arg] in Hends. cbn [orb]. rewrite Hends.
    destruct (Ascii.eqb c "#"); reflexivity.
Qed.



(** X25. Quoting round trip: a line that is one quoted span, spelling the
    text [s] with each of its quotes doubled, parses to the one argument
    [s] (followed by the expansion of the empty text that comes after the
    closing quote). *)
Lemma parse_whole_span (expand : string -> string) (s : string) :
  parse expand (String "'" (quote_body s ++ String "'" EmptyString))
  = Ret [s ++ expand EmptyString].
Proof.
  pose proof (span_steps expand EmptyString s EmptyString init eq_refl eq_refl eq_refl) as Hsteps.
  rewrite app_nil_l in Hsteps.
  set (line := String "'" (quote_body s ++ String "'" EmptyString)) in *.
  pose proof (parse_loop_total expand line) as Htot.
  assert (Hlen : len line = len (quote_body s) + 2).
  { unfold line. rewrite len_cons, len_app, len_cons, len_nil. lia. }
  assert (Hone : parse_loop expand (S (S (String.length s)) + 1) line init
                 = Some (Ret [s ++ expand EmptyString])).
  { rewrite (parse_steps_loop _ _ _ _ _ _ Hsteps). cbn [parse_loop].
    unfold parse_step. cbn [quoted idx start args arg negb andb].
    rewrite len_nil, Z.add_0_l, <- Hlen, Z.leb_refl. cbn [orb].
    pose proof (len_nonneg line). destruct (Z.leb_spec 0 (len line)); [|lia].
    cbn [args]. unfold pending. cbn [start]. rewrite app_nil_l.
    rewrite slice_empty. reflexivity. }
  assert (Hlen' : (S (S (String.length s)) + 1 <= S (String.length line))%nat).
  { assert (String.length s <= String.length (quote_body s))%nat.
    { clear. induction s as [|c s IH]; [simpl; lia|].
      simpl. destruct (Ascii.eqb c "'"); simpl; lia. }
    unfold len in Hlen. lia. }
  pose proof (parse_loop_more _ _ _ _ _ _ Hone Hlen') as Hmore.
  congruence.
Qed.

End ParseFacts.

(* ===================================================================== *)
(** * The environment: the map and the list *)
(* ===================================================================== *)

Module EnvFacts.
Import StrFacts Env.

Lemma index_eq_none_app (key value : string) :
  String.index 0 "=" key = None ->
  String.index 0 "=" (key ++ String "=" value) = Some (String.length key).
Proof.
  induction key as [|b key IH]; intros Hnone.
  - rewrite app_nil_l. destruct value; reflexivity.
  - rewrite app_cons. cbn [String.index String.prefix] in *.
    destruct (ascii_dec "=" b) as [Heq|Hne].
    + destruct key; discriminate.
    + destruct (String.index 0 "=" key) eqn:Hk; [discriminate|].
      rewrite (IH eq_refl). reflexivity.
Qed.

(** [strings.Index(key+"="+value, "=")] when [key] holds no ['=']. *)
Lemma Index_joined (key value : string) :
  Index key "=" < 0 -> Index (key ++ "=" ++ value) "=" = len key.
Proof.
  unfold Index. intros Hneg.
  destruct (String.index 0 "=" key) eqn:Hk; [lia|].
  change (key ++ "=" ++ value) with (key ++ String "=" value).
  rewrite (index_eq_none_app key value Hk). reflexivity.
Qed.

Lemma slice_joined_key (key value : string) :
  slice (key ++ "=" ++ value) 0 (len key) = key.
Proof.
  pose proof (slice_app_mid EmptyString key ("=" ++ value)) as Hs.
  rewrite app_nil_l, len_nil in Hs. exact Hs.
Qed.

Lemma slice_joined_value (key value : string) :
  slice (key ++ "=" ++ value) (len key + 1) (len (key ++ "=" ++ value)) = value.
Proof.
  pose proof (slice_app_mid (key ++ "=") value EmptyString) as Hs.
  rewrite app_nil_r, app_assoc in Hs.
  rewrite !len_app in *. change (len "=") with 1 in *.
  rewrite Z.add_assoc. exact Hs.
Qed.

(** Looking a key up after one more entry of the list has been recorded. *)
Lemma lookup_record_kv (envvarname : string -> string) (m : gmap string string)
    (kv k : string) :
  record_kv envvarname m kv !! k =
  match SplitN2 kv "=" with
  | [k0; v] => if String.eqb (envvarname k0) k then Some v else m !! k
  | _ => m !! k
  end.
Proof.
  unfold record_kv, SplitN2. change (String "=" EmptyString) with "=".
  destruct (Z.ltb_spec (Index kv "=") 0) as [Hneg|Hpos];
    destruct (Z.leb_spec 0 (Index kv "=")) as [Hle|Hgt]; try lia.
  - reflexivity.
  - destruct (String.eqb_spec (envvarname (slice kv 0 (Index kv "="))) k) as [->|Hne].
    + apply lookup_insert_eq.
    + apply lookup_insert_ne. exact Hne.
Qed.

(** The map [setup] builds is the replay of the list. *)
Lemma build_envMap_replayed (envvarname : string -> string) (l : list string) (k : string) :
  build_envMap envvarname l !! k = replayed envvarname l k.
Proof.
  unfold build_envMap, replayed.
  induction l as [|kv l IH] using rev_ind.
  - reflexivity.
  - rewrite foldl_app, rev_unit. cbn [foldl scan_back].
    rewrite lookup_record_kv, IH.
    destruct (SplitN2 kv "=") as [|k0 [|v [|? ?]]]; reflexivity.
Qed.

Lemma setup_consistent (envvarname : string -> string) (l : list string) :
  consistent envvarname (setup_vars envvarname l).
Proof. intros k. apply build_envMap_replayed. Qed.

(** [Setenv] with a key that holds no ['='] keeps the map the replay of the
    list. *)
Lemma Setenv_consistent (envvarname : string -> string) (key value : string) (v : vars) :
  Index key "=" < 0 ->
  consistent envvarname v ->
  consistent envvarname (Setenv envvarname key value v).
Proof.
  intros Hkey Hv k. unfold Setenv, replayed. cbn [env envMap].
  rewrite rev_unit. cbn [scan_back].
  unfold SplitN2. change (String "=" EmptyString) with "=".
  rewrite (Index_joined key value Hkey).
  pose proof (len_nonneg key) as Hk.
  destruct (Z.ltb_spec (len key) 0); [lia|].
  rewrite slice_joined_key, slice_joined_value.
  destruct (String.eqb_spec (envvarname key) k) as [->|Hne].
  - apply lookup_insert_eq.
  - rewrite lookup_insert_ne by exact Hne. apply Hv.
Qed.

(** From [setup] on, any number of [Setenv] calls with keys that hold no
    ['='] keep the map the replay of the list. *)
Lemma Setenv_all_consistent (envvarname : string -> string) (l : list string)
    (kvs : list (string * string)) :
  Forall (fun kv => Index kv.1 "=" < 0) kvs ->
  consistent envvarname
    (foldl (fun v kv => Setenv envvarname kv.1 kv.2 v) (setup_vars envvarname l) kvs).
Proof.
  induction kvs as [|kv kvs IH] using rev_ind; intros Hkeys.
  - apply setup_consistent.
  - apply Forall_app in Hkeys as [Hkvs Hkv]. apply Forall_cons in Hkv as [Hkv _].
    rewrite foldl_app. cbn [foldl]. apply Setenv_consistent; [exact Hkv|].
    apply IH. exact Hkvs.
Qed.

(** On a consistent state [ts.Getenv] is the last value written for the
    normalized key, as [Env.Getenv] finds it in the list. *)
Lemma Getenv_last_written (envvarname : string -> string) (key : string) (v : vars) :
  consistent envvarname v ->
  Getenv envvarname key v = Env_Getenv envvarname key (env v).
Proof.
  intros Hv. unfold Getenv, Env_Getenv. rewrite Hv. reflexivity.
Qed.

(** The setup-time [Env.Setenv] refuses the key that breaks [ts.Setenv]. *)
Example Env_Setenv_refuses : Env_Setenv "A=B" "c" [] = Panic "invalid environment variable key".
Proof. reflexivity. Qed.

(** C3, on the code. [ts.Setenv("A=B", "c")] right after a [setup] with no
    variables: the list gets [A=B=c], which replays as [A] bound to [B=c],
    and the map gets [A=B] bound to [c]. Whatever [envvarname] is, the map
    is then not the replay of the list. *)
Theorem Setenv_key_with_equals_breaks_replay (envvarname : string -> string) :
  ~ consistent envvarname (Setenv envvarname "A=B" "c" (setup_vars envvarname [])).
Proof.
  intros Hc. specialize (Hc (envvarname "A=B")).
  unfold Setenv, replayed in Hc. cbn [env envMap setup_vars app rev scan_back] in Hc.
  rewrite lookup_insert_eq in Hc.
  change (SplitN2 ("A=B" ++ "=" ++ "c") "=") with ["A"; "B=c"] in Hc.
  cbv iota in Hc.
  destruct (String.eqb (envvarname "A") (envvarname "A=B")); discriminate.
Qed.

End EnvFacts.

(* ===================================================================== *)
(** * The HTTP sub-language: classification, arguments, clients *)
(* ===================================================================== *)

Module HttpFacts.
Import StrFacts Http.

(** With a nil response handle [http] panics whatever the errors are. *)
Lemma respond_nil (body : string) (errs : list string) :
  respond None body errs = Panic "nil pointer dereference".
Proof.
  unfold respond. destruct errs as [|e0 rest]; [reflexivity|].
  destruct (negb (Contains e0 HTTP2_GOAWAY_CHECK)); reflexivity.
Qed.

(** An issued request ends in [respond] on what [req.End()] returned. *)
Lemma http_issues (H : Host) (a0 : string) (rest : list string) (s s1 : hstate)
    (req : loc) (a a' : SuperAgent) (resp : option Response) (body : string)
    (errs : list string) :
  a0 <> "client" ->
  reqFromArgs H (a0 :: rest) s = (s1, Ret (Applied req)) ->
  heap s1 !! req = Some a ->
  End_ H a = (a', (resp, body, errs)) ->
  http H (a0 :: rest) s =
    ({| httpClients := httpClients s1; heap := <[req := a']> (heap s1) |},
     respond resp body errs).
Proof.
  intros Hne Hreq Hheap Hend. unfold http.
  destruct (String.eqb_spec a0 "client") as [->|_]; [contradiction|].
  rewrite Hreq. cbn [checked]. rewrite Hheap, Hend. reflexivity.
Qed.

(** What [respond] returns when there are errors. *)
Lemma respond_errors (resp : option Response) (body e0 : string)
    (rest : list string) :
  respond resp body (e0 :: rest) =
  match resp with
  | Some r0 =>
      Ret {| out := EmptyString;
             errout := body ++ nl;
             code := StatusCode r0;
             err := Some ((if Contains e0 HTTP2_GOAWAY_CHECK
                           then "Internal Error:" ++ nl
                           else "Internal Weirdr Error:" ++ backspace)
                          ++ fmt_errs (e0 :: rest) ++ nl ++ (body ++ nl) ++ nl) |}
  | None => Panic "nil pointer dereference"
  end.
Proof.
  destruct resp as [r0|]; [|apply respond_nil].
  unfold respond. destruct (Contains e0 HTTP2_GOAWAY_CHECK); cbn.
  - rewrite !app_assoc. reflexivity.
  - rewrite !app_assoc. reflexivity.
Qed.




(** The part of the claim the code keeps: a bare verb sets the method to
    that verb, in either case of letters. *)
Lemma bare_verb_sets_method (H : Host) :
  Forall (fun verb => arg_effect H verb = Ret (Some (set_Method verb)))
         ["GET"; "POST"; "HEAD"; "PUT"; "DELETE"; "PATCH"; "OPTIONS"] /\
  arg_effect H "post" = Ret (Some (set_Method "POST")).
Proof. split; [repeat constructor|reflexivity]. Qed.

(** C5, on the code. The arm [case "M", "METHOD"] assigns the upper-cased key,
    not the value: after [METHOD=<value>] the method is the text [METHOD],
    after [M=<value>] or [m=<value>] it is [M], whatever the value. *)
Theorem method_key_ignores_its_value (H : Host) (val : string) :
  arg_effect H ("METHOD=" ++ val) = Ret (Some (set_Method "METHOD")) /\
  arg_effect H ("M=" ++ val) = Ret (Some (set_Method "M")) /\
  arg_effect H ("m=" ++ val) = Ret (Some (set_Method "M")) /\
  forall (req : loc) (a : SuperAgent),
    applyArgToReq H req "METHOD=POST" {[ req := a ]}
    = ({[ req := set_Method "METHOD" a ]}, Ret (Applied req)).
Proof.
  assert (Hidx : forall (k : string),
            String.index 0 "=" k = None ->
            SplitN2 (k ++ "=" ++ val) "=" = [k; val]).
  { intros k Hk. unfold SplitN2. change (String "=" EmptyString) with "=".
    assert (Hneg : Index k "=" < 0) by (unfold Index; rewrite Hk; lia).
    rewrite (EnvFacts.Index_joined k val Hneg).
    pose proof (len_nonneg k). destruct (Z.ltb_spec (len k) 0); [lia|].
    rewrite EnvFacts.slice_joined_key, EnvFacts.slice_joined_value. reflexivity. }
  split; [|split; [|split]].
  - unfold arg_effect. change ("METHOD=" ++ val) with ("METHOD" ++ "=" ++ val).
    rewrite (Hidx "METHOD" eq_refl). reflexivity.
  - unfold arg_effect. change ("M=" ++ val) with ("M" ++ "=" ++ val).
    rewrite (Hidx "M" eq_refl). reflexivity.
  - unfold arg_effect. change ("m=" ++ val) with ("m" ++ "=" ++ val).
    rewrite (Hidx "m" eq_refl). reflexivity.
  - intros req a. unfold applyArgToReq.
    change (arg_effect H "METHOD=POST") with (Ret (Some (set_Method "METHOD")) : res (option (SuperAgent -> SuperAgent))).
    cbv beta iota. rewrite alter_singleton_eq. reflexivity.
Qed.

(** [applyArgToReq] touches the object it is given and no other, and hands
    the same pointer back. *)
Lemma applyArgToReq_frame (H : Host) (req : loc) (arg : string)
    (h h' : gmap loc SuperAgent) (r : res applied) :
  applyArgToReq H req arg h = (h', r) ->
  (forall l, l <> req -> h' !! l = h !! l) /\
  (forall q, r = Ret (Applied q) -> q = req).
Proof.
  unfold applyArgToReq.
  destruct (arg_effect H arg) as [[f|]|e|p]; intros [= <- <-]; split;
    try (intros l Hl; try reflexivity; apply lookup_alter_ne; congruence);
    intros q [=]; congruence.
Qed.

Lemma applyArgsToReq_frame (H : Host) (args : list string) :
  forall (req : loc) (h h' : gmap loc SuperAgent) (r : res applied),
    applyArgsToReq H req args h = (h', r) ->
    (forall l, l <> req -> h' !! l = h !! l) /\
    (forall q, r = Ret (Applied q) -> q = req).
Proof.
  induction args as [|arg args IH]; intros req h h' r Hrun.
  - injection Hrun as <- <-. split; [reflexivity|]. intros q [=]. congruence.
  - cbn [applyArgsToReq] in Hrun.
    destruct (applyArgToReq H req arg h) as [h1 r1] eqn:Hone.
    apply applyArgToReq_frame in Hone as [Hframe Hsame].
    destruct r1 as [[q1|e]|f|p].
    + rewrite (Hsame q1 eq_refl) in Hrun.
      apply IH in Hrun as [Hframe' Hsame'].
      split; [|exact Hsame'].
      intros l Hl. rewrite Hframe' by exact Hl. apply Hframe. exact Hl.
    + injection Hrun as <- <-. split; [exact Hframe|]. intros q [=].
    + injection Hrun as <- <-. split; [exact Hframe|]. intros q [=].
    + injection Hrun as <- <-. split; [exact Hframe|]. intros q [=].
Qed.

(** A new object does not sit where an object already is. *)
Lemma fresh_not_used (h : gmap loc SuperAgent) (l : loc) (a : SuperAgent) :
  h !! l = Some a -> l <> fresh (dom h).
Proof.
  intros Hl ->. apply (is_fresh (dom h)). apply elem_of_dom. eexists. exact Hl.
Qed.

(** Building a request through a known client leaves every object of the
    heap, and the registry, as they were. *)
Lemma reqFromArgs_known (H : Host) (name : string) (rest : list string) (s : hstate)
    (l : loc) (t : SuperAgent) :
  httpClients s !! name = Some l -> heap s !! l = Some t ->
  reqFromArgs H (name :: rest) s =
    (let R := fresh (dom (heap s)) in
     let '(h2, r) := applyArgsToReq H R rest (<[R := t]> (heap s)) in
     ({| httpClients := httpClients s; heap := h2 |}, r)).
Proof.
  intros Hname Hl. unfold reqFromArgs, Clone, alloc. rewrite Hname, Hl. reflexivity.
Qed.

Lemma reqFromArgs_frame (H : Host) (name : string) (rest : list string) (s s1 : hstate)
    (l : loc) (t : SuperAgent) (r : res applied) :
  httpClients s !! name = Some l -> heap s !! l = Some t ->
  reqFromArgs H (name :: rest) s = (s1, r) ->
  httpClients s1 = httpClients s /\
  (forall l' a, heap s !! l' = Some a -> heap s1 !! l' = Some a) /\
  (forall q, r = Ret (Applied q) -> q = fresh (dom (heap s))).
Proof.
  intros Hname Hl Hrun. rewrite (reqFromArgs_known H name rest s l t Hname Hl) in Hrun.
  cbv zeta in Hrun.
  destruct (applyArgsToReq H (fresh (dom (heap s))) rest
              (<[fresh (dom (heap s)) := t]> (heap s))) as [h2 r2] eqn:Happ.
  injection Hrun as <- <-.
  apply applyArgsToReq_frame in Happ as [Hframe Hsame].
  split; [reflexivity|]. split; [|exact Hsame].
  intros l' a Hl'. cbn [heap].
  pose proof (fresh_not_used _ _ _ Hl') as Hne.
  rewrite Hframe by exact Hne. rewrite lookup_insert_ne by congruence. exact Hl'.
Qed.

(** C6. Issuing through a named client. The first argument names a client
    of the registry whose template is [t]. Then the request is built on a
    copy of [t] placed at a location the heap did not use, and the
    arguments that follow are applied to that copy; after [reqFromArgs],
    and after the whole of [http] (the exchange included), the registry is
    as before and every object that was in the heap, the template among
    them, is unchanged. *)
Theorem issuing_keeps_template (H : Host) (name : string) (rest : list string)
    (s : hstate) (l : loc) (t : SuperAgent) :
  name <> "client" ->
  httpClients s !! name = Some l -> heap s !! l = Some t ->
  reqFromArgs H (name :: rest) s =
    (let R := fresh (dom (heap s)) in
     let '(h2, r) := applyArgsToReq H R rest (<[R := t]> (heap s)) in
     ({| httpClients := httpClients s; heap := h2 |}, r)) /\
  (let s1 := fst (reqFromArgs H (name :: rest) s) in
   httpClients s1 = httpClients s /\ heap s1 !! l = Some t /\
   forall l' a, heap s !! l' = Some a -> heap s1 !! l' = Some a) /\
  (let s2 := fst (http H (name :: rest) s) in
   httpClients s2 = httpClients s /\ heap s2 !! l = Some t /\
   forall l' a, heap s !! l' = Some a -> heap s2 !! l' = Some a).
Proof.
  intros Hne Hname Hl.
  split; [apply (reqFromArgs_known H name rest s l t Hname Hl)|].
  destruct (reqFromArgs H (name :: rest) s) as [s1 r] eqn:Hreq.
  destruct (reqFromArgs_frame H name rest s s1 l t r Hname Hl Hreq)
    as (Hreg & Hframe & Hsame).
  split.
  - cbn [fst]. split; [exact Hreg|]. split; [apply Hframe; exact Hl|exact Hframe].
  - unfold http. destruct (String.eqb_spec name "client") as [->|_]; [contradiction|].
    rewrite Hreq.
    destruct r as [[q|e]|f|p]; cbn [checked fst];
      try (split; [exact Hreg|]; split; [apply Hframe; exact Hl|exact Hframe]).
    destruct (heap s1 !! q) as [a|] eqn:Hq; cbn [fst];
      try (split; [exact Hreg|]; split; [apply Hframe; exact Hl|exact Hframe]).
    destruct (End_ H a) as [a' [[resp body] errs]]. cbn [fst httpClients heap].
    rewrite (Hsame q eq_refl).
    split; [exact Hreg|].
    assert (Hkeep : forall l' a0, heap s !! l' = Some a0 ->
              <[fresh (dom (heap s)) := a']> (heap s1) !! l' = Some a0).
    { intros l' a0 Hl'. pose proof (fresh_not_used _ _ _ Hl') as Hfresh.
      rewrite lookup_insert_ne by congruence. apply Hframe. exact Hl'. }
    split; [apply Hkeep; exact Hl|exact Hkeep].
Qed.

(** Issuing [http api POST D=hello] through the client [api]. *)
Lemma issuing_keeps_template_witness :
  "api" <> "client" /\
  httpClients Samples.one_client !! "api" = Some 1%positive /\
  heap Samples.one_client !! 1%positive = Some Samples.api_template /\
  httpClients (fst (http Samples.http_host ["api"; "POST"; "D=hello"] Samples.one_client))
    = httpClients Samples.one_client /\
  heap (fst (http Samples.http_host ["api"; "POST"; "D=hello"] Samples.one_client))
    !! 1%positive = Some Samples.api_template.
Proof.
  assert (Hname : httpClients Samples.one_client !! "api" = Some 1%positive)
    by apply lookup_singleton_eq.
  assert (Hl : heap Samples.one_client !! 1%positive = Some Samples.api_template)
    by apply lookup_singleton_eq.
  assert (Hne : "api" <> "client") by discriminate.
  split; [exact Hne|]. split; [exact Hname|]. split; [exact Hl|].
  destruct (issuing_keeps_template Samples.http_host "api" ["POST"; "D=hello"]
              Samples.one_client 1%positive Samples.api_template Hne Hname Hl)
    as (_ & _ & Hreg & Htpl & _).
  split; [exact Hreg|exact Htpl].
Defined.

(** [http client mod api POST], for contrast, changes the template in
    place. *)
Example mod_changes_template :
  manageHttpClient Samples.http_host ["mod"; "api"; "POST"] Samples.one_client
  = ({| httpClients := <["api" := 1%positive]> {[ "api" := 1%positive ]};
        heap := alter (set_Method "POST") 1%positive {[ 1%positive := Samples.api_template ]} |},
     Ret tt).
Proof.
  unfold manageHttpClient. cbn [String.eqb Ascii.eqb Bool.eqb].
  change (httpClients Samples.one_client !! "api") with
    (({[ "api" := 1%positive ]} : gmap string loc) !! "api").
  rewrite lookup_singleton_eq. reflexivity.
Qed.

End HttpFacts.

(* ===================================================================== *)
(** * The golden-file updater *)
(* ===================================================================== *)

Module GoldenFacts.
Import StrFacts Golden.

Lemma has_entry_existsb (fs : list File) (name : string) :
  has_entry fs name <-> existsb (named name) fs = true.
Proof.
  unfold has_entry, named. rewrite existsb_exists. split.
  - intros (f & Hin & Hn). exists f. split; [exact Hin|]. apply String.eqb_eq. exact Hn.
  - intros (f & Hin & Hn). exists f. split; [exact Hin|]. apply String.eqb_eq. exact Hn.
Qed.

Lemma Name_patch1 (H : Host) (name content : string) (f : File) :
  Name (patch1 H name content f) = Name f.
Proof. unfold patch1. destruct (String.eqb (Name f) name); reflexivity. Qed.

Lemma existsb_named_patch1 (H : Host) (n name content : string) (fs : list File) :
  existsb (named n) (map (patch1 H name content) fs) = existsb (named n) fs.
Proof.
  induction fs as [|f fs IH]; [reflexivity|].
  cbn [map existsb]. rewrite IH. unfold named at 1 3. rewrite Name_patch1. reflexivity.
Qed.

(** The inner loop when the content can be stored. *)
Lemma update_entries_ok (H : Host) (name content : string) :
  (NeedsQuote H content = true -> exists q, Quote H content = inr q) ->
  forall (fs : list File) (found : bool),
    update_entries H name content fs found =
    (map (patch1 H name content) fs, Ret (found || existsb (named name) fs)).
Proof.
  intros Hq. induction fs as [|f fs IH]; intros found.
  - cbn. rewrite orb_false_r. reflexivity.
  - cbn [update_entries map existsb]. unfold patch1 at 1, named at 1, stored.
    destruct (String.eqb (Name f) name); cbn [negb orb].
    + destruct (NeedsQuote H content) eqn:Hn.
      * destruct (Hq eq_refl) as [q Hquote]. rewrite Hquote, IH.
        rewrite orb_true_r. reflexivity.
      * rewrite IH, orb_true_r. reflexivity.
    + rewrite IH. reflexivity.
Qed.

(** The inner loop when the content cannot be quoted and an entry has the
    name: the test fails at the first such entry, the files are as before. *)
Lemma update_entries_unquotable (H : Host) (name content e : string) :
  NeedsQuote H content = true -> Quote H content = inl e ->
  forall (fs : list File) (found : bool),
    existsb (named name) fs = true ->
    update_entries H name content fs found = (fs, Fatal (CannotUpdateFile name e)).
Proof.
  intros Hn Hquote. induction fs as [|f fs IH]; intros found Hex; [discriminate|].
  cbn [update_entries existsb] in *. unfold named at 1 in Hex.
  destruct (String.eqb_spec (Name f) name) as [Heq|Hne]; cbn [negb orb] in *.
  - rewrite Hn, Hquote, Heq. reflexivity.
  - rewrite (IH found Hex). reflexivity.
Qed.

(** The inner loop never renames an entry. *)
Lemma update_entries_names (H : Host) (name content : string) :
  forall (fs fs' : list File) (found : bool) (r : res bool),
    update_entries H name content fs found = (fs', r) ->
    map Name fs' = map Name fs.
Proof.
  induction fs as [|f fs IH]; intros fs' found r Hrun.
  - injection Hrun as <- <-. reflexivity.
  - cbn [update_entries] in Hrun.
    destruct (negb (String.eqb (Name f) name)).
    + destruct (update_entries H name content fs found) as [rest' r'] eqn:Hrest.
      injection Hrun as <- <-. cbn [map]. f_equal. eapply IH. exact Hrest.
    + destruct (NeedsQuote H content).
      * destruct (Quote H content) as [e|q].
        -- injection Hrun as <- <-. reflexivity.
        -- destruct (update_entries H name content fs true) as [rest' r'] eqn:Hrest.
           injection Hrun as <- <-. cbn [map]. f_equal. eapply IH. exact Hrest.
      * destruct (update_entries H name content fs true) as [rest' r'] eqn:Hrest.
        injection Hrun as <- <-. cbn [map]. f_equal. eapply IH. exact Hrest.
Qed.

Lemma existsb_named_names (n : string) (fs fs' : list File) :
  map Name fs' = map Name fs -> existsb (named n) fs' = existsb (named n) fs.
Proof.
  revert fs'. induction fs as [|f fs IH]; intros [|f' fs'] Hnames; try discriminate.
  - reflexivity.
  - cbn [map] in Hnames. injection Hnames as Hn Hrest.
    cbn [existsb]. unfold named at 1 3. rewrite Hn, (IH fs' Hrest). reflexivity.
Qed.

Lemma apply_updates_ok (H : Host) (order : list (string * string)) :
  forall fs : list File,
    Forall (fun nc => NeedsQuote H nc.2 = true -> exists q, Quote H nc.2 = inr q) order ->
    Forall (fun nc => existsb (named nc.1) fs = true) order ->
    apply_updates H order fs = (patch_in_turn H order fs, Ret tt).
Proof.
  induction order as [|[name content] order IH]; intros fs Hq Hall; [reflexivity|].
  apply Forall_cons in Hq as [Hq1 Hq]. apply Forall_cons in Hall as [Hh Hall].
  cbn [apply_updates]. rewrite (update_entries_ok H name content Hq1).
  cbn [fst snd] in Hh. rewrite Hh. cbn [orb].
  unfold patch_in_turn. cbn [foldl fst snd]. apply IH; [exact Hq|].
  eapply Forall_impl; [exact Hall|].
  intros nc Hnc. cbn beta in *. rewrite existsb_named_patch1. exact Hnc.
Qed.

Lemma apply_updates_missing (H : Host) (order : list (string * string)) :
  forall fs : list File,
    Forall (fun nc => NeedsQuote H nc.2 = true -> exists q, Quote H nc.2 = inr q) order ->
    Exists (fun nc => existsb (named nc.1) fs = false) order ->
    exists fs', apply_updates H order fs = (fs', Panic "script update file not found").
Proof.
  induction order as [|[name content] order IH]; intros fs Hq Hex.
  - inversion Hex.
  - apply Forall_cons in Hq as [Hq1 Hq].
    cbn [apply_updates]. rewrite (update_entries_ok H name content Hq1). cbn [orb].
    destruct (existsb (named name) fs) eqn:Hhere.
    + apply IH; [exact Hq|].
      apply Exists_cons in Hex as [Hhd|Htl]; [cbn in Hhd; congruence|].
      eapply Exists_impl; [exact Htl|].
      intros nc Hnc. cbn beta in *. rewrite existsb_named_patch1. exact Hnc.
    + eexists. reflexivity.
Qed.

(** A content that cannot be quoted, recorded for a path that has an entry:
    the loop does not come to its end. *)
Lemma apply_updates_unquotable (H : Host) (name content e : string)
    (order : list (string * string)) :
  NeedsQuote H content = true -> Quote H content = inl e ->
  In (name, content) order ->
  forall fs : list File,
    existsb (named name) fs = true ->
    forall fs' r, apply_updates H order fs = (fs', r) -> r <> Ret tt.
Proof.
  intros Hn Hquote. induction order as [|[n0 c0] order IH]; intros Hin fs Hex fs' r Hrun.
  - destruct Hin.
  - cbn [apply_updates] in Hrun. destruct Hin as [[= -> ->]|Hin].
    + rewrite (update_entries_unquotable H name content e Hn Hquote fs false Hex) in Hrun.
      injection Hrun as <- <-. discriminate.
    + destruct (update_entries H n0 c0 fs false) as [fs1 r1] eqn:Hone.
      pose proof (update_entries_names _ _ _ _ _ _ _ Hone) as Hnames.
      destruct r1 as [[|]|f|p].
      * eapply (IH Hin fs1); [|exact Hrun].
        rewrite (existsb_named_names name fs fs1 Hnames). exact Hex.
      * injection Hrun as <- <-. discriminate.
      * injection Hrun as <- <-. discriminate.
      * injection Hrun as <- <-. discriminate.
Qed.

(** With distinct names the updates made in turn are one simultaneous
    update. *)
Lemma patch_in_turn_patched (H : Host) (order : list (string * string)) :
  NoDup order.*1 ->
  forall fs : list File,
    patch_in_turn H order fs = map (patched H (list_to_map order)) fs.
Proof.
  unfold patch_in_turn.
  induction order as [|[name content] order IH]; intros Hnd fs.
  - cbn. unfold patched. induction fs as [|f fs IHfs]; [reflexivity|].
    cbn [map]. rewrite lookup_empty, <- IHfs. reflexivity.
  - cbn [fmap list_fmap fst] in Hnd. apply NoDup_cons in Hnd as [Hnotin Hnd].
    cbn [foldl fst snd]. rewrite (IH Hnd). rewrite map_map.
    apply map_ext. intros f. cbn [list_to_map foldr fst snd].
    unfold patched, patch1.
    destruct (String.eqb_spec (Name f) name) as [Heq|Hne].
    + cbn [Name]. rewrite Heq, lookup_insert_eq.
      rewrite (not_elem_of_list_to_map_1 order name Hnotin). reflexivity.
    + rewrite lookup_insert_ne by congruence. reflexivity.
Qed.

Lemma order_facts (m : gmap string string) (order : list (string * string)) :
  order ≡ₚ map_to_list m ->
  NoDup order.*1 /\ list_to_map order = m /\
  (forall n c, (n, c) ∈ order <-> m !! n = Some c).
Proof.
  intros Hperm.
  assert (Hnd : NoDup order.*1).
  { rewrite Hperm. apply NoDup_fst_map_to_list. }
  split; [exact Hnd|]. split.
  - rewrite (list_to_map_proper order (map_to_list m) Hnd Hperm).
    apply list_to_map_to_list.
  - intros n c. rewrite Hperm. apply elem_of_map_to_list.
Qed.




End GoldenFacts.

(* ===================================================================== *)
(** * The run loop: guards, parse errors, background commands *)
(* ===================================================================== *)

Module RunFacts.
Import StrFacts Run.

(** A guard that agrees strips itself: the loop goes on with the rest. *)
Lemma guards_strip (H : Host) (a : string) (more : list string) :
  agrees H a -> more <> [] -> guards H (a :: more) = guards H more.
Proof.
  intros [Hg Hc] Hne. cbn [guards]. rewrite Hg, Hc.
  destruct more as [|b more]; [contradiction|].
  rewrite Bool.eqb_reflx. reflexivity.
Qed.

Lemma guards_strip_all (H : Host) (passed more : list string) :
  Forall (agrees H) passed -> more <> [] ->
  guards H (passed ++ more) = guards H more.
Proof.
  intros Hall Hne. induction Hall as [|a passed Ha Hall IH]; [reflexivity|].
  cbn [app]. rewrite guards_strip; [exact IH|exact Ha|].
  destruct passed; [exact Hne|discriminate].
Qed.

(** A guard that disagrees ends the loop: the line is skipped. *)
Lemma guards_skip (H : Host) (g c : string) (tail : list string) :
  disagreeing H g -> guards H (g :: c :: tail) = Ret Skip.
Proof.
  intros [Hg Hc]. cbn [guards]. rewrite Hg, Hc.
  destruct (guard_want g); reflexivity.
Qed.

(** The lines of a script whose first line is [l]. *)
Lemma script_lines_cons (l more : string) :
  no_newline l ->
  script_lines (l ++ String "010" more) = l :: script_lines more.
Proof.
  unfold no_newline. induction l as [|c l IH]; intros Hnl.
  - reflexivity.
  - cbn [has_byte] in Hnl. apply orb_false_elim in Hnl as [Hc Hl].
    rewrite app_cons. cbn [script_lines]. rewrite Hc, (IH Hl). reflexivity.
Qed.


(** C9. An unterminated quoted span. The loop of [parse] reaches, outside
    quotes, a quote after which every quote of the line is doubled: the
    span never closes. Then [parse] fails with "unterminated quoted
    argument", and the run loop stops at that line with this failure: its
    state is the one reached by counting the line, remembering it and
    writing the FAIL line of [Fatalf] to the log, so no command of the line
    has run, and whatever follows in the script is not looked at. *)
Theorem unterminated_quote_aborts_run (H : Host) (ts : Script) (pre s more : string)
    (rest : list string) (n : nat) (st : Parse.pstate) :
  let l := pre ++ String "'" (Parse.quote_body s) in
  HasPrefix l (PhasePrefix H) = false ->
  HasPrefix l (CommentPrefix H) = false ->
  Parse.parse_steps (expand H ts) n l Parse.init = Parse.Continue st ->
  Parse.idx st = len pre -> Parse.quoted st = false ->
  no_newline l ->
  Parse.parse (expand H ts) l = Fatal UnterminatedQuote /\
  run_lines H (l :: rest) ts =
    Fatalf H UnterminatedQuote (set_line l (set_lineno (lineno ts + 1) ts)) /\
  run_script H (l ++ String "010" more) ts =
    Fatalf H UnterminatedQuote (set_line l (set_lineno (lineno ts + 1) ts)).
Proof.
  intros l Hph Hco Hreach Hidx Hq Hnl.
  assert (Hparse : Parse.parse (expand H ts) l = Fatal UnterminatedQuote).
  { apply (ParseFacts.parse_aborts _ _ (n + S (S (String.length s)))).
    rewrite (ParseFacts.parse_steps_app _ _ _ _ _ _ Hreach).
    cbn [Parse.parse_steps].
    rewrite ParseFacts.step_open; [| exact Hq | | ].
    - unfold l.
      replace (pre ++ String "'" (Parse.quote_body s))
        with ((pre ++ String "'" EmptyString) ++ Parse.quote_body s)
        by (rewrite app_assoc; reflexivity).
      apply ParseFacts.unterminated_steps; [|reflexivity].
      cbn [Parse.idx]. rewrite len_app, len_cons, len_nil. lia.
    - unfold l. rewrite len_app, len_cons.
      pose proof (len_nonneg (Parse.quote_body s)). lia.
    - apply (ParseFacts.at_is_split l pre (Parse.quote_body s) "'"); [reflexivity|assumption]. }
  assert (Hlines : forall rest', run_lines H (l :: rest') ts =
            Fatalf H UnterminatedQuote (set_line l (set_lineno (lineno ts + 1) ts))).
  { intros rest'. cbn [run_lines]. unfold run_line. rewrite Hph, Hco. unfold parse.
    change (expand H (set_lineno (lineno ts + 1) ts)) with (expand H ts).
    rewrite Hparse. reflexivity. }
  split; [exact Hparse|]. split; [apply Hlines|].
  unfold run_script. rewrite script_lines_cons by exact Hnl.
  rewrite Hlines. reflexivity.
Qed.

Lemma background_markTime (H : Host) (ts : Script) :
  background (markTime H ts) = background ts.
Proof. unfold markTime. destruct ((0 <? mark ts) && started ts); reflexivity. Qed.

Lemma events_markTime (H : Host) (ts : Script) :
  events (markTime H ts) = events ts.
Proof. unfold markTime. destruct ((0 <? mark ts) && started ts); reflexivity. Qed.

(** The teardown leaves no background command, however the run got there. *)
Lemma teardown_drains (H : Host) (ts : Script) :
  background (fst (teardown H ts)) = [] /\
  snd (teardown H ts) = Ret tt /\
  events (fst (teardown H ts)) =
    app (events ts)
        (app (map (fun bg => Interrupt (cmd bg)) (background ts))
             (map (fun bg => Await (cmd bg)) (background ts))).
Proof.
  unfold teardown. cbn [fst snd]. rewrite background_markTime, events_markTime.
  split; [reflexivity|]. split; [reflexivity|].
  cbn. rewrite <- List.app_assoc. reflexivity.
Qed.


(** A background command that must succeed and ends in failure: it fails
    the test at the wait command, and not at the teardown. *)
Example teardown_ignores_failure :
  let ts := set_background [ {| cmd := 7; neg := 0 |} ] Samples.script0 in
  snd (cmdWait Samples.host ts) = Fatal (CommandFailed "unexpected outcome of a background command") /\
  teardown Samples.host ts =
    (add_events [Interrupt 7; Await 7] Samples.script0, Ret tt).
Proof. split; reflexivity. Qed.

(** The same command at the end of a script that ran through: the final
    wait of [run] goes through the wait command, which reports it. *)
Example final_wait_reports_failure :
  snd (run_script Samples.host EmptyString
         (set_background [ {| cmd := 7; neg := 0 |} ] Samples.script0))
  = Fatal (CommandFailed "unexpected outcome of a background command").
Proof. reflexivity. Qed.


(** The script [echo 'unterminated] followed by [echo next], on the sample
    host. *)
Lemma unterminated_quote_aborts_run_witness :
  HasPrefix "echo 'unterminated" (PhasePrefix Samples.host) = false /\
  HasPrefix "echo 'unterminated" (CommentPrefix Samples.host) = false /\
  Parse.parse_steps (expand Samples.host Samples.script0) 5 "echo 'unterminated" Parse.init
    = Parse.Continue (Parse.PState ["echo"] EmptyString (-1) false 5) /\
  no_newline "echo 'unterminated" /\
  run_script Samples.host ("echo 'unterminated" ++ String "010" "echo next") Samples.script0 =
    (set_log ("FAIL: t.hls:1: unterminated quoted argument" ++ Http.nl)
       (set_line "echo 'unterminated" (set_lineno 1 Samples.script0)),
     Fatal UnterminatedQuote).
Proof.
  assert (Hreach : Parse.parse_steps (expand Samples.host Samples.script0) 5
                     "echo 'unterminated" Parse.init
                   = Parse.Continue (Parse.PState ["echo"] EmptyString (-1) false 5))
    by (vm_compute; reflexivity).
  assert (Hnl : no_newline "echo 'unterminated") by reflexivity.
  split; [reflexivity|]. split; [reflexivity|]. split; [exact Hreach|]. split; [exact Hnl|].
  exact (proj2 (proj2 (unterminated_quote_aborts_run Samples.host Samples.script0
                  "echo " "unterminated" "echo next" [] 5
                  (Parse.PState ["echo"] EmptyString (-1) false 5)
                  eq_refl eq_refl Hreach eq_refl eq_refl Hnl))).
Defined.

End RunFacts.

(* ===================================================================== *)
(** * More on the parser: termination, lines without quotes *)
(* ===================================================================== *)

Module ParseMore.
Import StrFacts Parse ParseFacts.

(** The only failure of a turn is the unterminated quote. *)
Lemma parse_step_abort (expand : string -> string) (line : string) (st : pstate) (f : failure) :
  parse_step expand line st = Abort f -> f = UnterminatedQuote.
Proof.
  unfold parse_step.
  destruct (negb (quoted st) && ((len line <=? idx st) || is_sep line (idx st))).
  - destruct ((len line <=? idx st) || at_is line (idx st) "#"); discriminate.
  - destruct (len line <=? idx st); [intros [= <-]; reflexivity|].
    destruct (at_is line (idx st) "'"); [|discriminate].
    destruct (negb (quoted st)); [discriminate|].
    destruct ((idx st + 1 <? len line) && at_is line (idx st + 1) "'"); discriminate.
Qed.

Lemma parse_loop_outcomes (expand : string -> string) (line : string) :
  forall (fuel : nat) (st : pstate) (r : res (list string)),
    parse_loop expand fuel line st = Some r ->
    (exists a, r = Ret a) \/ r = Fatal UnterminatedQuote.
Proof.
  induction fuel as [|fuel IH]; intros st r Hrun; [discriminate|].
  cbn [parse_loop] in Hrun.
  destruct (parse_step expand line st) as [st'|a|f] eqn:Hstep.
  - eapply IH. exact Hrun.
  - injection Hrun as <-. left. eexists. reflexivity.
  - injection Hrun as <-. right. apply parse_step_abort in Hstep. subst f. reflexivity.
Qed.

(** X1. [parse] comes to an end on every line, within [len(line) + 1] turns
    of its loop, and it ends in one of two ways: with a list of arguments,
    or with the failure "unterminated quoted argument". *)
Theorem parse_ends (expand : string -> string) (line : string) :
  parse_loop expand (S (String.length line)) line init = Some (parse expand line) /\
  ((exists a, parse expand line = Ret a) \/ parse expand line = Fatal UnterminatedQuote).
Proof.
  split; [apply parse_loop_total|].
  eapply parse_loop_outcomes. apply parse_loop_total.
Qed.

(** One turn outside quotes, on a line given in pieces. *)
Lemma step_outside (expand : string -> string) (P r : string) (x : ascii) (st : pstate) :
  quoted st = false -> idx st = len P ->
  Ascii.eqb x "'" = false ->
  parse_step expand (P ++ String x r) st =
    if is_sep_byte x then
      let a1 := if 0 <=? start st
                then app (args st) [arg st ++ expand (slice (P ++ String x r) (start st) (len P))]
                else args st in
      if Ascii.eqb x "#" then Break a1
      else Continue {| args := a1;
                       arg := if 0 <=? start st then EmptyString else arg st;
                       start := if 0 <=? start st then -1 else start st;
                       quoted := false; idx := len P + 1 |}
    else Continue {| args := args st; arg := arg st;
                     start := if start st <? 0 then len P else start st;
                     quoted := false; idx := len P + 1 |}.
Proof.
  intros Hq Hidx Hx. unfold parse_step, is_sep. rewrite Hq, Hidx. cbn [negb andb].
  rewrite !at_is_here, Hx.
  assert (Hlen : len (P ++ String x r) = len P + 1 + len r) by (rewrite len_app, len_cons; lia).
  pose proof (len_nonneg r).
  destruct (Z.leb_spec (len (P ++ String x r)) (len P)); [lia|]. cbn [orb].
  fold (is_sep_byte x).
  destruct (is_sep_byte x).
  - destruct (0 <=? start st); cbn [args arg start quoted idx];
      destruct (Ascii.eqb x "#"); rewrite ?Hq; reflexivity.
  - rewrite ?Hq. reflexivity.
Qed.

Lemma flush_tok (cur : option string) (a : list string) (expand : string -> string) :
  app a (map expand (match cur with Some c => [c] | None => [] end))
  = match cur with Some c => app a [expand c] | None => a end.
Proof. destruct cur; cbn; [reflexivity|apply List.app_nil_r]. Qed.

Lemma plain_run (expand : string -> string) (B : string) :
  forall (A0 : string) (cur : option string) (a : list string) (fuel : nat),
    code_quote_free B = true ->
    (cur = None \/ exists c, cur = Some c) ->
    (String.length B < fuel)%nat ->
    parse_loop expand fuel (A0 ++ held cur ++ B)
      {| args := a; arg := EmptyString; start := held_start cur A0; quoted := false;
         idx := len A0 + len (held cur) |}
    = Some (Ret (app a (map expand (tok cur B)))).
Proof.
  induction B as [|x r IH]; intros A0 cur a fuel Hfree _ Hfuel.
  - destruct fuel as [|fuel]; [simpl in Hfuel; lia|].
    cbn [parse_loop tok]. unfold parse_step. cbn [quoted idx start args arg negb andb].
    rewrite app_nil_r.
    replace (len A0 + len (held cur)) with (len (A0 ++ held cur)) by apply len_app.
    rewrite Z.leb_refl. cbn [orb]. rewrite flush_tok.
    destruct cur as [c|]; cbn [held_start held].
    + pose proof (len_nonneg A0). destruct (Z.leb_spec 0 (len A0)); [|lia].
      cbn [args]. rewrite app_nil_l.
      pose proof (slice_app_mid A0 c EmptyString) as Hs. rewrite app_nil_r in Hs.
      rewrite <- len_app in Hs. rewrite Hs. reflexivity.
    + reflexivity.
  - destruct fuel as [|fuel]; [simpl in Hfuel; lia|].
    cbn [String.length] in Hfuel.
    cbn [code_quote_free] in Hfree.
    assert (Hx : Ascii.eqb x "'" = false).
    { destruct (Ascii.eqb x "#") eqn:Hh.
      - apply Ascii.eqb_eq in Hh. subst x. reflexivity.
      - destruct (Ascii.eqb x "'"); [discriminate|reflexivity]. }
    cbn [parse_loop].
    replace (A0 ++ held cur ++ String x r) with ((A0 ++ held cur) ++ String x r)
      by (rewrite app_assoc; reflexivity).
    rewrite (step_outside expand (A0 ++ held cur) r x); [|reflexivity|cbn [idx]; rewrite len_app; reflexivity|exact Hx].
    cbn [args arg start]. cbn [tok].
    assert (Hslice : forall c, cur = Some c ->
              slice ((A0 ++ held cur) ++ String x r) (len A0) (len (A0 ++ held cur)) = c).
    { intros c ->. cbn [held]. rewrite app_assoc, len_app. apply slice_app_mid. }
    pose proof (len_nonneg A0) as HA0.
    destruct (Ascii.eqb x "#") eqn:Hhash.
    + assert (His : is_sep_byte x = true) by (unfold is_sep_byte; rewrite Hhash, !orb_true_r; reflexivity).
      rewrite His. rewrite flush_tok.
      destruct cur as [c|]; cbn [held_start].
      * destruct (Z.leb_spec 0 (len A0)); [|lia].
        rewrite (Hslice c eq_refl), app_nil_l. reflexivity.
      * reflexivity.
    + rewrite Hx in Hfree. destruct (is_sep_byte x) eqn:His.
      * (* a blank: the word, if any, is pushed *)
        destruct cur as [c|]; cbn [held_start held] in *.
        -- destruct (Z.leb_spec 0 (len A0)); [|lia].
           rewrite (Hslice c eq_refl), app_nil_l.
           pose proof (IH ((A0 ++ c) ++ String x EmptyString) None (app a [expand c]) fuel) as IHn.
           cbn [held held_start] in IHn. rewrite app_nil_l, len_nil, Z.add_0_r in IHn.
           replace (((A0 ++ c) ++ String x EmptyString) ++ r) with ((A0 ++ c) ++ String x r) in IHn
             by (rewrite !app_assoc; reflexivity).
           replace (len ((A0 ++ c) ++ String x EmptyString)) with (len (A0 ++ c) + 1) in IHn
             by (rewrite (len_app (A0 ++ c)), len_cons, len_nil; lia).
           rewrite IHn.
           ++ rewrite <- List.app_assoc. reflexivity.
           ++ exact Hfree.
           ++ left; reflexivity.
           ++ lia.
        -- rewrite app_nil_r.
           pose proof (IH (A0 ++ String x EmptyString) None a fuel) as IHn.
           cbn [held held_start] in IHn. rewrite app_nil_l, len_nil, Z.add_0_r in IHn.
           replace ((A0 ++ String x EmptyString) ++ r) with (A0 ++ String x r) in IHn
             by (rewrite !app_assoc; reflexivity).
           replace (len (A0 ++ String x EmptyString)) with (len A0 + 1) in IHn
             by (rewrite len_app, len_cons, len_nil; lia).
           rewrite ?len_nil, ?Z.add_0_r.
           apply IHn; [exact Hfree|left; reflexivity|lia].
      * (* a byte of a word *)
        destruct cur as [c|]; cbn [held_start held] in *.
        -- destruct (Z.ltb_spec (len A0) 0); [lia|].
           pose proof (IH A0 (Some (c ++ String x EmptyString)) a fuel) as IHn.
           cbn [held held_start] in IHn.
           replace (A0 ++ (c ++ String x EmptyString) ++ r) with ((A0 ++ c) ++ String x r) in IHn
             by (rewrite !app_assoc; reflexivity).
           replace (len A0 + len (c ++ String x EmptyString)) with (len (A0 ++ c) + 1) in IHn
             by (rewrite !len_app, len_cons, len_nil; lia).
           apply IHn; [exact Hfree|right; eexists; reflexivity|lia].
        -- rewrite app_nil_r.
           pose proof (IH A0 (Some (String x EmptyString)) a fuel) as IHn.
           cbn [held held_start] in IHn.
           replace (A0 ++ String x EmptyString ++ r) with (A0 ++ String x r) in IHn
             by reflexivity.
           replace (len A0 + len (String x EmptyString)) with (len A0 + 1) in IHn
             by (rewrite len_cons, len_nil; lia).
           rewrite ?len_nil, ?Z.add_0_r.
           apply IHn; [exact Hfree|right; eexists; reflexivity|lia].
Qed.

(** [parse] on a line with no quote before its first [#]. *)
Lemma parse_plain (expand : string -> string) (line : string) :
  code_quote_free line = true ->
  parse expand line = Ret (map expand (split_plain line)).
Proof.
  intros Hfree. unfold parse, split_plain.
  pose proof (plain_run expand line EmptyString None [] (S (String.length line)) Hfree
                (or_introl eq_refl)) as Hrun.
  cbn [held held_start] in Hrun. rewrite !app_nil_l, len_nil in Hrun.
  change (PState [] EmptyString (-1) false (0 + 0)) with init in Hrun.
  rewrite Hrun by lia. reflexivity.
Qed.

(** X2. On a line with no quote before its first [#], [parse] is: cut the
    line at the first [#], split what is left at spaces, tabs and carriage
    returns, drop the empty pieces, and expand each word. *)
Theorem parse_plain_line (expand : string -> string) (line : string) :
  code_quote_free line = true ->
  parse expand line = Ret (map expand (split_plain line)).
Proof. apply parse_plain. Qed.

Lemma parse_plain_line_witness :
  code_quote_free ("exec  cat" ++ String "009" "$file # the file's text") = true /\
  parse Samples.mark_expand ("exec  cat" ++ String "009" "$file # the file's text")
  = Ret ["<exec>"; "<cat>"; "<$file>"].
Proof.
  split; [reflexivity|].
  exact (parse_plain_line Samples.mark_expand ("exec  cat" ++ String "009" "$file # the file's text") eq_refl).
Defined.

Lemma tok_blank (ws tail : string) :
  blank ws = true -> (tail = EmptyString \/ exists c, tail = String "#" c) ->
  tok None (ws ++ tail) = [] /\ code_quote_free (ws ++ tail) = true.
Proof.
  intros Hws Htail. induction ws as [|x ws IH].
  - rewrite app_nil_l. destruct Htail as [->|[c ->]]; split; reflexivity.
  - cbn [blank] in Hws. apply andb_prop in Hws as [Hx Hws].
    destruct (IH Hws) as [IHt IHq].
    rewrite app_cons. cbn [tok code_quote_free].
    assert (Hh : Ascii.eqb x "#" = false /\ Ascii.eqb x "'" = false /\ is_sep_byte x = true).
    { unfold is_sep_byte.
      destruct (Ascii.eqb_spec x " ") as [->|]; [repeat split; reflexivity|].
      destruct (Ascii.eqb_spec x "009") as [->|]; [repeat split; reflexivity|].
      destruct (Ascii.eqb_spec x "013") as [->|]; [repeat split; reflexivity|].
      discriminate. }
    destruct Hh as (-> & -> & ->). split; assumption.
Qed.

(** X3. A line made of blanks only, or of blanks and then a [#] with
    anything after it (quotes included), parses to no argument at all. *)
Theorem parse_blank_line (expand : string -> string) (ws tail : string) :
  blank ws = true -> (tail = EmptyString \/ exists c, tail = String "#" c) ->
  parse expand (ws ++ tail) = Ret [].
Proof.
  intros Hws Htail. destruct (tok_blank ws tail Hws Htail) as [Htok Hfree].
  rewrite (parse_plain expand _ Hfree). unfold split_plain. rewrite Htok. reflexivity.
Qed.

Lemma parse_blank_line_witness :
  blank ("  " ++ String "009" EmptyString) = true /\
  parse Samples.mark_expand (("  " ++ String "009" EmptyString) ++ "# don't run 'this") = Ret [].
Proof.
  split; [reflexivity|].
  apply (parse_blank_line Samples.mark_expand ("  " ++ String "009" EmptyString) "# don't run 'this" eq_refl).
  right. eexists. reflexivity.
Defined.

End ParseMore.

(* ===================================================================== *)
(** * More on the environment: reading back what was set *)
(* ===================================================================== *)

Module EnvMore.
Import StrFacts Env EnvFacts.

(** X4. Right after [setup], [ts.Getenv] on the map and [Env.Getenv] on the
    list of variables give the same value for every key, whatever the list
    holds (entries without [=], repeated keys, empty keys). *)
Theorem Getenv_agrees_after_setup (envvarname : string -> string) (l : list string)
    (key : string) :
  Getenv envvarname key (setup_vars envvarname l) = Env_Getenv envvarname key l.
Proof.
  unfold Getenv, Env_Getenv. cbn [envMap setup_vars].
  rewrite build_envMap_replayed. reflexivity.
Qed.

(** X5. [ts.Setenv] then [ts.Getenv]: the value set is read back under
    every key with the same normalized name, and every other key reads as
    before. *)
Theorem Getenv_Setenv (envvarname : string -> string) (key value key' : string) (v : vars) :
  Getenv envvarname key' (Setenv envvarname key value v) =
  if String.eqb (envvarname key) (envvarname key') then value
  else Getenv envvarname key' v.
Proof.
  unfold Getenv, Setenv. cbn [envMap].
  destruct (String.eqb_spec (envvarname key) (envvarname key')) as [Heq|Hne].
  - rewrite Heq, lookup_insert_eq. reflexivity.
  - rewrite lookup_insert_ne by exact Hne. reflexivity.
Qed.

(** X6. After [setup] and any number of [ts.Setenv] calls whose keys hold
    no [=], the map is the replay of the list, and [ts.Getenv] gives what
    [Env.Getenv] finds in the list. *)
Theorem valid_Setenvs_keep_replay (envvarname : string -> string) (l : list string)
    (kvs : list (string * string)) (key : string) :
  Forall (fun kv => Index kv.1 "=" < 0) kvs ->
  let v := foldl (fun v kv => Setenv envvarname kv.1 kv.2 v) (setup_vars envvarname l) kvs in
  consistent envvarname v /\
  Getenv envvarname key v = Env_Getenv envvarname key (env v).
Proof.
  intros Hkeys v.
  assert (Hc : consistent envvarname v) by (apply Setenv_all_consistent; exact Hkeys).
  split; [exact Hc|]. apply Getenv_last_written. exact Hc.
Qed.

Lemma valid_Setenvs_keep_replay_witness :
  Forall (fun kv : string * string => Index kv.1 "=" < 0) [("GOPATH", "/go"); ("gopath", "a=b")] /\
  Getenv (fun k => k) "GOPATH"
    (foldl (fun v kv => Setenv (fun k => k) kv.1 kv.2 v)
       (setup_vars (fun k => k) ["WORK=/tmp/w"; "junk"])
       [("GOPATH", "/go"); ("gopath", "a=b")])
  = Env_Getenv (fun k => k) "GOPATH"
      ["WORK=/tmp/w"; "junk"; "GOPATH=/go"; "gopath=a=b"].
Proof.
  assert (Hkeys : Forall (fun kv : string * string => Index kv.1 "=" < 0)
                    [("GOPATH", "/go"); ("gopath", "a=b")]).
  { repeat constructor. }
  split; [exact Hkeys|].
  exact (proj2 (valid_Setenvs_keep_replay (fun k => k) ["WORK=/tmp/w"; "junk"]
                  [("GOPATH", "/go"); ("gopath", "a=b")] "GOPATH" Hkeys)).
Defined.

Lemma scan_back_joined (envvarname : string -> string) (key value k : string)
    (rest : list string) :
  Index key "=" < 0 ->
  scan_back envvarname k ((key ++ "=" ++ value) :: rest) =
  if String.eqb (envvarname key) k then Some value else scan_back envvarname k rest.
Proof.
  intros Hkey. cbn [scan_back]. unfold SplitN2. change (String "=" EmptyString) with "=".
  rewrite (Index_joined key value Hkey).
  pose proof (len_nonneg key). destruct (Z.ltb_spec (len key) 0); [lia|].
  rewrite slice_joined_key, slice_joined_value. reflexivity.
Qed.

(** X7. The setup-time [Env.Setenv] and [Env.Getenv]. A key that is empty
    or holds [=] makes [Env.Setenv] panic. Any other key is appended with
    its value; [Env.Getenv] then reads the value back under every key with
    the same normalized name and reads every other key as before. *)
Theorem Env_Setenv_Getenv (envvarname : string -> string) (key value key' : string)
    (l : list string) :
  (key = EmptyString \/ 0 <= Index key "=" ->
   exists msg, Env_Setenv key value l = Panic msg) /\
  (key <> EmptyString -> Index key "=" < 0 ->
   Env_Setenv key value l = Ret (app l [key ++ "=" ++ value]) /\
   Env_Getenv envvarname key' (app l [key ++ "=" ++ value]) =
     if String.eqb (envvarname key) (envvarname key') then value
     else Env_Getenv envvarname key' l).
Proof.
  split.
  - intros Hbad. unfold Env_Setenv.
    destruct Hbad as [->|Hidx]; [eexists; reflexivity|].
    destruct (Z.ltb_spec (Index key "=") 0); [lia|].
    rewrite orb_true_r. eexists. reflexivity.
  - intros Hne Hidx. split.
    + unfold Env_Setenv.
      destruct (String.eqb_spec key EmptyString); [contradiction|].
      destruct (Z.ltb_spec (Index key "=") 0); [reflexivity|lia].
    + unfold Env_Getenv. rewrite rev_unit, (scan_back_joined _ _ _ _ _ Hidx).
      destruct (String.eqb (envvarname key) (envvarname key')); reflexivity.
Qed.

Lemma Env_Setenv_Getenv_witness :
  "HOME" <> EmptyString /\ Index "HOME" "=" < 0 /\
  Env_Setenv "HOME" "/no-home" ["WORK=/tmp/w"] = Ret ["WORK=/tmp/w"; "HOME=/no-home"] /\
  Env_Getenv (fun k => k) "HOME" ["WORK=/tmp/w"; "HOME=/no-home"] = "/no-home".
Proof.
  destruct (proj2 (Env_Setenv_Getenv (fun k => k) "HOME" "/no-home" "HOME" ["WORK=/tmp/w"])
              ltac:(discriminate) eq_refl) as [Hset Hget].
  split; [discriminate|]. split; [reflexivity|]. split; [exact Hset|exact Hget].
Defined.

End EnvMore.

(* ===================================================================== *)
(** * More on the run loop: lines, guards, conditions, phases, deferred calls *)
(* ===================================================================== *)

Module RunMore.
Import StrFacts Run RunFacts.

Lemma has_byte_index (c : ascii) (s : string) :
  has_byte c s = false -> String.index 0 (String c EmptyString) s = None.
Proof.
  induction s as [|x s IH]; intros Hno; [reflexivity|].
  cbn [has_byte] in Hno. apply orb_false_elim in Hno as [Hx Hs].
  cbn [String.index String.prefix].
  destruct (ascii_dec c x) as [->|Hne].
  - rewrite Ascii.eqb_refl in Hx. discriminate.
  - rewrite (IH Hs). reflexivity.
Qed.

Lemma index_byte_app (c : ascii) (l more : string) :
  has_byte c l = false ->
  String.index 0 (String c EmptyString) (l ++ String c more) = Some (String.length l).
Proof.
  induction l as [|x l IH]; intros Hno.
  - rewrite app_nil_l. cbn [String.index String.prefix].
    destruct (ascii_dec c c) as [_|Hne]; [|contradiction].
    destruct more; reflexivity.
  - cbn [has_byte] in Hno. apply orb_false_elim in Hno as [Hx Hl].
    rewrite app_cons. cbn [String.index String.prefix].
    destruct (ascii_dec c x) as [->|Hne].
    + rewrite Ascii.eqb_refl in Hx. discriminate.
    + rewrite (IH Hl). reflexivity.
Qed.

(** A text has no byte [c], or has a first one. *)
Lemma first_byte (c : ascii) (s : string) :
  has_byte c s = false \/
  exists l more, s = l ++ String c more /\ has_byte c l = false.
Proof.
  induction s as [|x s IH]; [left; reflexivity|].
  destruct (Ascii.eqb_spec x c) as [->|Hne].
  - right. exists EmptyString, s. split; reflexivity.
  - destruct IH as [Hno|(l & more & -> & Hl)].
    + left. cbn [has_byte]. rewrite Hno.
      destruct (Ascii.eqb_spec x c); [contradiction|reflexivity].
    + right. exists (String x l), more. split; [reflexivity|].
      cbn [has_byte]. rewrite Hl.
      destruct (Ascii.eqb_spec x c); [contradiction|reflexivity].
Qed.

Lemma script_lines_one (s : string) :
  s <> EmptyString -> no_newline s -> script_lines s = [s].
Proof.
  unfold no_newline. induction s as [|x s IH]; intros Hne Hno; [contradiction|].
  cbn [has_byte] in Hno. apply orb_false_elim in Hno as [Hx Hs].
  cbn [script_lines]. rewrite Hx.
  destruct s as [|y s]; [reflexivity|].
  rewrite (IH ltac:(discriminate) Hs). reflexivity.
Qed.

(** X8. The structural reading of the script agrees with the head of the
    loop: a script that is not empty gives the line cut off at its first
    newline (the whole text when it has none), followed by the lines of
    what is left; the empty script gives no line. *)
Theorem script_lines_cut (script : string) :
  script_lines EmptyString = [] /\
  (script <> EmptyString ->
   script_lines script =
     fst (cut_line script) :: script_lines (snd (cut_line script))).
Proof.
  split; [reflexivity|]. intros Hne. unfold cut_line, Index.
  destruct (first_byte "010" script) as [Hno|(l & more & -> & Hl)].
  - change Http.nl with (String "010" EmptyString).
    rewrite (has_byte_index _ _ Hno). cbn [Z.leb fst snd].
    apply script_lines_one; assumption.
  - change Http.nl with (String "010" EmptyString).
    rewrite (index_byte_app _ _ _ Hl).
    pose proof (len_nonneg l) as Hlen. fold (len l).
    destruct (Z.leb_spec 0 (len l)); [|lia]. cbn [fst snd].
    rewrite (script_lines_cons l more Hl).
    pose proof (slice_app_mid EmptyString l (String "010" more)) as Hs1.
    rewrite app_nil_l, len_nil, Z.add_0_l in Hs1. rewrite Hs1.
    pose proof (slice_app_mid (l ++ String "010" EmptyString) more EmptyString) as Hs2.
    rewrite app_nil_r, app_assoc in Hs2.
    replace (len (l ++ String "010" EmptyString)) with (len l + 1) in Hs2
      by (rewrite len_app, len_cons, len_nil; lia).
    replace (len l + 1 + len more) with (len (l ++ String "010" more)) in Hs2
      by (rewrite len_app, len_cons; lia).
    change (String "010" EmptyString ++ more) with (String "010" more) in Hs2.
    rewrite Hs2. reflexivity.
Qed.

Lemma script_lines_cut_witness :
  "exec echo hi" ++ Http.nl ++ "stdout hi" <> EmptyString /\
  script_lines ("exec echo hi" ++ Http.nl ++ "stdout hi") = ["exec echo hi"; "stdout hi"].
Proof.
  split; [discriminate|].
  rewrite (proj2 (script_lines_cut ("exec echo hi" ++ Http.nl ++ "stdout hi")) ltac:(discriminate)).
  reflexivity.
Defined.

Lemma script_lines_nil (s : string) : script_lines s = [] -> s = EmptyString.
Proof.
  destruct s as [|x s]; [reflexivity|]. cbn [script_lines].
  destruct (Ascii.eqb x "010"); [discriminate|].
  destruct (script_lines s); discriminate.
Qed.

Lemma concat_cons_head (x : ascii) (l : string) (ls : list string) :
  String.concat Http.nl (String x l :: ls) = String x (String.concat Http.nl (l :: ls)).
Proof. destruct ls; reflexivity. Qed.

(** X9. The lines of a script, joined by newlines, are the script without
    its final newline if it has one; no line holds a newline. *)
Theorem script_lines_join (s : string) :
  s = String.concat Http.nl (script_lines s)
      ++ (if ends_in_newline s then Http.nl else EmptyString) /\
  Forall no_newline (script_lines s).
Proof.
  induction s as [|x s [IHj IHn]]; [split; [reflexivity|constructor]|].
  cbn [script_lines ends_in_newline].
  destruct (Ascii.eqb_spec x "010") as [->|Hx].
  - split; [|constructor; [reflexivity|exact IHn]].
    destruct s as [|y s]; [reflexivity|].
    destruct (script_lines (String y s)) as [|l ls] eqn:Hl.
    { apply script_lines_nil in Hl. discriminate. }
    cbn [String.concat]. change (EmptyString ++ ?a) with a.
    change (Http.nl ++ ?a) with (String "010" a). rewrite app_cons.
    f_equal. exact IHj.
  - destruct (script_lines s) as [|l ls] eqn:Hl.
    + apply script_lines_nil in Hl. subst s. split; [reflexivity|].
      constructor; [|constructor]. unfold no_newline. cbn [has_byte].
      destruct (Ascii.eqb_spec x "010"); [contradiction|reflexivity].
    + split.
      * destruct s as [|y s]; [discriminate|].
        rewrite concat_cons_head, app_cons. f_equal. exact IHj.
      * apply Forall_cons in IHn as [Hl0 Hls]. constructor; [|exact Hls].
        unfold no_newline in *. cbn [has_byte]. rewrite Hl0.
        destruct (Ascii.eqb_spec x "010"); [contradiction|reflexivity].
Qed.



(** X11. [condition] fails the test in one case only: the name is none of
    [short], [net], [link], [symlink], is not the current system or
    architecture nor a known one, does not start with [exec:], and no hook
    was given; the failure is then "unknown condition". In every other
    case it returns, and the [panic("unreachable")] that follows the call
    of [Fatalf] is never reached: [condition] raises no panic of its
    own. *)
Theorem condition_fails_only_unknown (H : Host) (cond : string) :
  (forall p, condition H cond <> Panic p) /\
  (forall f, condition H cond = Fatal f ->
     f = UnknownCondition cond /\ Condition H = None /\
     existsb (String.eqb cond) ["short"; "net"; "link"; "symlink"; GOOS H; GOARCH H] = false /\
     KnownArch H cond = false /\ KnownOS H cond = false /\
     HasPrefix cond "exec:" = false) /\
  (existsb (String.eqb cond) ["short"; "net"; "link"; "symlink"; GOOS H; GOARCH H] = false ->
   KnownArch H cond = false -> KnownOS H cond = false ->
   HasPrefix cond "exec:" = false -> Condition H = None ->
   condition H cond = Fatal (UnknownCondition cond)).
Proof.
  unfold condition. cbn [existsb].
  destruct (String.eqb cond "short"); [repeat split; intros; discriminate|].
  destruct (String.eqb cond "net"); [repeat split; intros; discriminate|].
  destruct (String.eqb cond "link"); [repeat split; intros; discriminate|].
  destruct (String.eqb cond "symlink"); [repeat split; intros; discriminate|].
  destruct (String.eqb cond (GOOS H)); [repeat split; intros; discriminate|].
  destruct (String.eqb cond (GOARCH H)); [repeat split; intros; discriminate|].
  cbn [orb].
  destruct (KnownArch H cond); [repeat split; intros; discriminate|].
  destruct (KnownOS H cond); [repeat split; intros; discriminate|]. cbn [orb].
  destruct (HasPrefix cond "exec:"); [repeat split; intros; discriminate|].
  destruct (Condition H) as [hook|]; [repeat split; intros; discriminate|].
  split; [intros p; discriminate|]. split.
  - intros f [= <-]. repeat split; reflexivity.
  - reflexivity.
Qed.

Lemma slice_front (a b : string) : slice (a ++ b) 0 (len a) = a.
Proof.
  pose proof (slice_app_mid EmptyString a b) as Hs.
  rewrite app_nil_l, len_nil, Z.add_0_l in Hs. exact Hs.
Qed.

Lemma slice_back (a b : string) : slice (a ++ b) (len a) (len (a ++ b)) = b.
Proof.
  pose proof (slice_app_mid a b EmptyString) as Hs.
  rewrite app_nil_r, <- len_app in Hs. exact Hs.
Qed.

(** X12. What a phase heading does to the log of the phase before it. The
    log is [base], the heading [l1] of the running phase with its newline,
    where the mark stands, and then the details [t] of the phase. At the
    next heading [l2] the elapsed time is put at the end of the heading
    [l1], the details are dropped unless the run is verbose, [l2] is
    added, and the mark stands at the end of the log. *)
Theorem phase_elides_details (H : Host) (ts : Script) (base l1 t l2 : string) :
  log ts = (base ++ l1 ++ Http.nl) ++ t ->
  mark ts = len (base ++ l1 ++ Http.nl) ->
  started ts = true ->
  t <> EmptyString ->
  log (phase H l2 ts) =
    base ++ l1 ++ " (" ++ elapsed H ++ "s)" ++ Http.nl
         ++ (if Verbose H then t else EmptyString) ++ l2 ++ Http.nl /\
  mark (phase H l2 ts) = len (log (phase H l2 ts)) /\
  started (phase H l2 ts) = true.
Proof.
  intros Hlog Hmark Hstarted Ht.
  assert (Ht' : 0 < len t).
  { destruct t; [contradiction|]. rewrite len_cons. pose proof (len_nonneg t). lia. }
  assert (Hm : mark ts = len (base ++ l1) + 1).
  { rewrite Hmark, <- app_assoc, (len_app (base ++ l1)). reflexivity. }
  pose proof (len_nonneg (base ++ l1)) as Hb.
  unfold phase.
  destruct (Z.ltb_spec (mark ts) (len (log ts))) as [_|Hge].
  2:{ rewrite Hlog, len_app, <- Hmark in Hge. lia. }
  assert (Hmt : log (markTime H (rewind H ts)) =
                base ++ l1 ++ " (" ++ elapsed H ++ "s)" ++ Http.nl
                ++ (if Verbose H then t else EmptyString)).
  { unfold markTime, rewind.
    destruct (Verbose H); cbn [negb].
    - rewrite Hstarted. destruct (Z.ltb_spec 0 (mark ts)); [|lia]. cbn [andb log set_log set_started].
      replace (slice (log ts) 0 (mark ts - 1)) with (base ++ l1).
      2:{ rewrite Hlog, Hm. replace (len (base ++ l1) + 1 - 1) with (len (base ++ l1)) by lia.
          rewrite <- (app_assoc base l1 Http.nl), !app_assoc.
          rewrite <- (app_assoc base l1). symmetry. apply slice_front. }
      replace (slice (log ts) (mark ts) (len (log ts))) with t.
      2:{ rewrite Hmark, Hlog. symmetry. apply slice_back. }
      rewrite !app_assoc. reflexivity.
    - cbn [mark started set_log log].
      rewrite Hstarted. destruct (Z.ltb_spec 0 (mark ts)); [|lia]. cbn [andb log set_log set_started].
      replace (slice (log ts) 0 (mark ts)) with ((base ++ l1) ++ Http.nl).
      2:{ rewrite Hlog, Hmark, <- (app_assoc base l1 Http.nl). symmetry. apply slice_front. }
      rewrite Hm. replace (len (base ++ l1) + 1 - 1) with (len (base ++ l1)) by lia.
      rewrite slice_front.
      replace (len (base ++ l1) + 1) with (len ((base ++ l1) ++ Http.nl))
        by (rewrite (len_app (base ++ l1)); reflexivity).
      rewrite slice_empty. rewrite !app_assoc. reflexivity. }
  cbn [log mark started set_log set_mark set_started].
  rewrite Hmt. split; [rewrite !app_assoc; reflexivity|]. split; reflexivity.
Qed.

Lemma phase_elides_details_witness :
  let ts := set_started true (set_mark 8 (set_log ("# build" ++ Http.nl ++ "> go build" ++ Http.nl)
                                           Samples.script0)) in
  log ts = (EmptyString ++ "# build" ++ Http.nl) ++ ("> go build" ++ Http.nl) /\
  mark ts = len (EmptyString ++ "# build" ++ Http.nl) /\
  started ts = true /\
  "> go build" ++ Http.nl <> EmptyString /\
  log (phase Samples.host "# test" ts) =
    "# build (0.001s)" ++ Http.nl ++ "# test" ++ Http.nl.
Proof.
  intros ts.
  split; [reflexivity|]. split; [reflexivity|]. split; [reflexivity|].
  split; [discriminate|].
  exact (proj1 (phase_elides_details Samples.host ts EmptyString "# build"
                  ("> go build" ++ Http.nl) "# test" eq_refl eq_refl eq_refl
                  ltac:(discriminate))).
Defined.

Lemma in_turn_app (fs gs : list action) (ts : Script) :
  in_turn (fs ++ gs) ts =
  let '(ts1, r1) := in_turn fs ts in
  let '(ts2, r2) := in_turn gs ts1 in
  (ts2, and_then r1 r2).
Proof.
  revert ts. induction fs as [|f fs IH]; intros ts.
  - cbn [app in_turn]. unfold no_deferred at 1.
    destruct (in_turn gs ts) as [ts2 r2]. destruct r2 as [[]| |]; reflexivity.
  - cbn [app in_turn]. destruct (f ts) as [ts1 r1]. rewrite IH.
    destruct (in_turn fs ts1) as [ts2 r2]. destruct (in_turn gs ts2) as [ts3 r3].
    destruct r1 as [[]| |], r2 as [[]| |], r3 as [[]| |]; reflexivity.
Qed.

(** X13. The deferred chain runs last registered first: after [Defer] was
    called with [f1], ..., [fn] in this order, calling the chain is calling
    [fn], ..., [f1] one after the other, each one whether or not those
    before it failed or panicked. *)
Theorem deferred_runs_in_reverse (fs : list action) (ts : Script) :
  deferred_after fs ts = in_turn (rev fs) ts.
Proof.
  unfold deferred_after. revert ts.
  induction fs as [|f fs IH] using rev_ind; intros ts; [reflexivity|].
  rewrite foldl_app, rev_unit. cbn [foldl in_turn]. unfold Defer.
  destruct (f ts) as [ts1 r1]. rewrite IH. reflexivity.
Qed.

(** X14. [paramDefaults] fills the empty fields and leaves the others: the
    glob and the two prefixes are never empty afterwards (an empty prefix
    would be a prefix of every line), a field that was set is kept, and
    applying the defaults twice changes nothing more. *)
Theorem paramDefaults_fills (p : Params.t) :
  Params.Glob (Params.paramDefaults p) <> EmptyString /\
  Params.PhasePrefix (Params.paramDefaults p) <> EmptyString /\
  Params.CommentPrefix (Params.paramDefaults p) <> EmptyString /\
  (Params.PhasePrefix p <> EmptyString ->
   Params.PhasePrefix (Params.paramDefaults p) = Params.PhasePrefix p) /\
  (Params.CommentPrefix p <> EmptyString ->
   Params.CommentPrefix (Params.paramDefaults p) = Params.CommentPrefix p) /\
  (Params.Glob p <> EmptyString ->
   Params.Glob (Params.paramDefaults p) = Params.Glob p) /\
  Params.paramDefaults (Params.paramDefaults p) = Params.paramDefaults p.
Proof.
  assert (Hfill : forall (s dflt : string), dflt <> EmptyString ->
            (if String.eqb s EmptyString then dflt else s) <> EmptyString).
  { intros s dflt Hd. destruct (String.eqb_spec s EmptyString); assumption. }
  assert (Hkeep : forall (s dflt : string), s <> EmptyString ->
            (if String.eqb s EmptyString then dflt else s) = s).
  { intros s dflt Hs. destruct (String.eqb_spec s EmptyString); [contradiction|reflexivity]. }
  destruct p as [d g ph co]. unfold Params.paramDefaults.
  cbn [Params.Dir Params.Glob Params.PhasePrefix Params.CommentPrefix].
  split; [apply Hfill; discriminate|]. split; [apply Hfill; discriminate|].
  split; [apply Hfill; discriminate|].
  split; [apply Hkeep|]. split; [apply Hkeep|]. split; [apply Hkeep|].
  f_equal; apply Hkeep; apply Hfill; discriminate.
Qed.

Lemma paramDefaults_fills_witness :
  let p := {| Params.Dir := "testdata"; Params.Glob := EmptyString;
              Params.PhasePrefix := "##"; Params.CommentPrefix := EmptyString |} in
  Params.PhasePrefix p <> EmptyString /\
  Params.PhasePrefix (Params.paramDefaults p) = "##" /\
  Params.CommentPrefix (Params.paramDefaults p) <> EmptyString.
Proof.
  intros p.
  destruct (paramDefaults_fills p) as (_ & _ & Hc & Hph & _).
  split; [discriminate|]. split; [exact (Hph ltac:(discriminate))|exact Hc].
Defined.



Lemma condition_fails_only_unknown_witness :
  condition Samples.host "nosuchcondition" = Fatal (UnknownCondition "nosuchcondition").
Proof.
  exact (proj2 (proj2 (condition_fails_only_unknown Samples.host "nosuchcondition"))
           eq_refl eq_refl eq_refl eq_refl eq_refl).
Defined.

End RunMore.

(* ===================================================================== *)
(** * More on the golden-file updater: what it never does *)
(* ===================================================================== *)

Module GoldenMore.
Import StrFacts Golden GoldenFacts.

Lemma apply_updates_names (H : Host) (order : list (string * string)) :
  forall (fs fs' : list File) (r : res unit),
    apply_updates H order fs = (fs', r) -> map Name fs' = map Name fs.
Proof.
  induction order as [|[name content] order IH]; intros fs fs' r Hrun.
  - injection Hrun as <- <-. reflexivity.
  - cbn [apply_updates] in Hrun.
    destruct (update_entries H name content fs false) as [fs1 r1] eqn:Hone.
    apply update_entries_names in Hone.
    destruct r1 as [[|]|f|p].
    + apply IH in Hrun. congruence.
    + injection Hrun as <- <-. exact Hone.
    + injection Hrun as <- <-. exact Hone.
    + injection Hrun as <- <-. exact Hone.
Qed.

(** X15. What [applyScriptUpdates] never does, however it ends (normally,
    with a failed test, or with a panic): it never adds, removes, renames
    or reorders an archive entry, never touches the archive comment, the
    file name or the recorded updates; it writes at most once, only when it
    ends normally with at least one update recorded, and then what it
    writes over the script file is the formatted archive it leaves. With
    no update recorded it does nothing at all. *)
Theorem updates_keep_archive_shape (H : Host) (order : list (string * string)) (s : gstate) :
  let s' := fst (applyScriptUpdates H order s) in
  let r := snd (applyScriptUpdates H order s) in
  map Name (Files (archive s')) = map Name (Files (archive s)) /\
  Comment (archive s') = Comment (archive s) /\
  file s' = file s /\ scriptUpdates s' = scriptUpdates s /\
  (written s' = written s \/
   (r = Ret tt /\ order <> [] /\
    written s' = app (written s) [(file s, Format H (archive s'))])) /\
  (r <> Ret tt -> written s' = written s /\ glog s' = glog s) /\
  (order = [] -> s' = s /\ r = Ret tt).
Proof.
  unfold applyScriptUpdates. destruct order as [|nc order].
  - cbn [fst snd]. repeat split; try reflexivity. left; reflexivity.
  - destruct (apply_updates H (nc :: order) (Files (archive s))) as [fs' r1] eqn:Hrun.
    pose proof (apply_updates_names _ _ _ _ _ Hrun) as Hnames.
    destruct r1 as [[]|f|p]; [destruct (WriteFile H (file s) _) as [e|] eqn:Hw|..];
      cbn [fst snd]; repeat split;
      try assumption; try reflexivity; try discriminate; try (exfalso; congruence);
      try (left; reflexivity).
    right. repeat split; try reflexivity. discriminate.
Qed.

(** An update that cannot be quoted: the test fails, nothing is written
    and the archive keeps its one entry. *)
Lemma updates_keep_archive_shape_witness :
  snd (applyScriptUpdates Samples.golden_host [("want", "-- new --")]
         (Samples.golden1 "-- new --")) <> Ret tt /\
  written (fst (applyScriptUpdates Samples.golden_host [("want", "-- new --")]
                  (Samples.golden1 "-- new --"))) = [] /\
  map Name (Files (archive (fst (applyScriptUpdates Samples.golden_host
                                   [("want", "-- new --")] (Samples.golden1 "-- new --")))))
  = ["want"].
Proof.
  assert (Hr : snd (applyScriptUpdates Samples.golden_host [("want", "-- new --")]
                      (Samples.golden1 "-- new --")) <> Ret tt) by discriminate.
  pose proof (updates_keep_archive_shape Samples.golden_host [("want", "-- new --")]
                (Samples.golden1 "-- new --")) as Hshape.
  cbv zeta in Hshape. destruct Hshape as (Hnames & _ & _ & _ & _ & Hfail & _).
  split; [exact Hr|]. split; [exact (proj1 (Hfail Hr))|exact Hnames].
Defined.

End GoldenMore.

(* ===================================================================== *)
(** * More on the HTTP sub-language: arguments and clients *)
(* ===================================================================== *)

Module HttpMore.
Import StrFacts Http HttpFacts.

(** [KEY=value] is cut at the first [=]. *)
Lemma SplitN2_joined (k val : string) :
  Index k "=" < 0 -> SplitN2 (k ++ "=" ++ val) "=" = [k; val].
Proof.
  intros Hneg. unfold SplitN2. change (String "=" EmptyString) with "=".
  rewrite (EnvFacts.Index_joined k val Hneg).
  pose proof (len_nonneg k). destruct (Z.ltb_spec (len k) 0); [lia|].
  rewrite EnvFacts.slice_joined_key, EnvFacts.slice_joined_value. reflexivity.
Qed.

Lemma SplitN2_bare (k : string) : Index k "=" < 0 -> SplitN2 k "=" = [k].
Proof.
  intros Hneg. unfold SplitN2. change (String "=" EmptyString) with "=".
  destruct (Z.ltb_spec (Index k "=") 0); [reflexivity|lia].
Qed.

Lemma applyArgsToReq_app (H : Host) (args1 args2 : list string) :
  forall (req : loc) (h : gmap loc SuperAgent),
    applyArgsToReq H req (args1 ++ args2) h =
    match applyArgsToReq H req args1 h with
    | (h1, Ret (Applied q)) => applyArgsToReq H q args2 h1
    | other => other
    end.
Proof.
  induction args1 as [|a args1 IH]; intros req h; [reflexivity|].
  cbn [app applyArgsToReq].
  destruct (applyArgToReq H req a h) as [h1 [[q|e]|f|p]]; try reflexivity.
  apply IH.
Qed.



Lemma in_keys_cases (K : string) (ks : list string) :
  in_keys K ks = true -> exists k, In k ks /\ K = k.
Proof.
  unfold in_keys. rewrite existsb_exists. intros (k & Hin & Heq).
  exists k. split; [exact Hin|]. apply String.eqb_eq. exact Heq.
Qed.

(** X17. [KEY=value] is cut at the first [=] only, so the value may itself
    hold [=], and the key is matched whatever the case of its letters: the
    URL keys set the URL to the value, and the query and data keys pass
    the value on as it is when it does not start with [@]. *)
Theorem key_value_cut_at_first_equals (H : Host) (k val : string) :
  Index k "=" < 0 ->
  (in_keys (ToUpper k) ["U"; "URL"] = true ->
   arg_effect H (k ++ "=" ++ val) = Ret (Some (set_Url val))) /\
  (in_keys (ToUpper k) ["Q"; "QUERY"] = true -> HasPrefix val "@" = false ->
   arg_effect H (k ++ "=" ++ val) = Ret (Some (add_call (CQuery val)))) /\
  (in_keys (ToUpper k) ["D"; "DATA"; "S"; "SEND"] = true -> HasPrefix val "@" = false ->
   arg_effect H (k ++ "=" ++ val) = Ret (Some (add_call (CSend val)))).
Proof.
  intros Hk. unfold arg_effect. rewrite (SplitN2_joined k val Hk). cbn [nth].
  remember (ToUpper k) as K eqn:HK. clear HK.
  split; [|split].
  - intros Hin. rewrite Hin. reflexivity.
  - intros Hin Hat. apply in_keys_cases in Hin as (k0 & Hin & ->).
    cbn [In] in Hin. destruct Hin as [<-|[<-|[]]]; cbn; rewrite Hat; reflexivity.
  - intros Hin Hat. apply in_keys_cases in Hin as (k0 & Hin & ->).
    cbn [In] in Hin. destruct Hin as [<-|[<-|[<-|[<-|[]]]]]; cbn; rewrite Hat; reflexivity.
Qed.

Lemma key_value_cut_at_first_equals_witness :
  Index "url" "=" < 0 /\ in_keys (ToUpper "url") ["U"; "URL"] = true /\
  arg_effect Samples.http_host ("url" ++ "=" ++ "http://x/get?a=b&c=d")
  = Ret (Some (set_Url "http://x/get?a=b&c=d")).
Proof.
  split; [reflexivity|]. split; [reflexivity|].
  exact (proj1 (key_value_cut_at_first_equals Samples.http_host "url"
                  "http://x/get?a=b&c=d" eq_refl) eq_refl).
Defined.

(** The tests on the key of an argument, evaluated. *)
Ltac eval_keys :=
  repeat match goal with
         | |- context [in_keys ?K ?ks] =>
             let b := eval vm_compute in (in_keys K ks) in
             change (in_keys K ks) with b
         end;
  cbv iota.

Lemma HasPrefix_at (f : string) : HasPrefix (String "@" f) "@" = true.
Proof. unfold HasPrefix. destruct f; reflexivity. Qed.

Lemma slice_tail1 (c : ascii) (f : string) : slice (String c f) 1 (len (String c f)) = f.
Proof.
  pose proof (slice_app_mid (String c EmptyString) f EmptyString) as Hs.
  rewrite app_nil_r in Hs. change (String c EmptyString ++ f) with (String c f) in Hs.
  rewrite len_cons, len_nil in Hs. rewrite len_cons.
  replace (1 + 0) with 1 in Hs by lia. replace (1 + 0 + len f) with (1 + len f) in Hs by lia.
  exact Hs.
Qed.

(** X18. A query or data value that starts with [@] names a file: the
    text passed on is the content of that file, as [ts.ReadFile] gives it,
    and when the file cannot be read the test fails with the error of the
    read. *)
Theorem payload_from_file (H : Host) (f : string) :
  arg_effect H ("D=@" ++ f) =
    match ReadFile H f with
    | Ret c => Ret (Some (add_call (CSend c)))
    | Fatal e => Fatal e
    | Panic p => Panic p
    end /\
  arg_effect H ("query=@" ++ f) =
    match ReadFile H f with
    | Ret c => Ret (Some (add_call (CQuery c)))
    | Fatal e => Fatal e
    | Panic p => Panic p
    end.
Proof.
  split.
  - unfold arg_effect. change ("D=@" ++ f) with ("D" ++ "=" ++ String "@" f).
    rewrite (SplitN2_joined "D" (String "@" f) eq_refl). cbn [nth]. cbv zeta.
    eval_keys. rewrite HasPrefix_at, slice_tail1.
    destruct (ReadFile H f); reflexivity.
  - unfold arg_effect. change ("query=@" ++ f) with ("query" ++ "=" ++ String "@" f).
    rewrite (SplitN2_joined "query" (String "@" f) eq_refl). cbn [nth]. cbv zeta.
    eval_keys. rewrite HasPrefix_at, slice_tail1.
    destruct (ReadFile H f); reflexivity.
Qed.

(** X19. An argument that starts with [http] and has no known key is taken
    as the URL, but only up to its first [=]: what follows an [=] in such
    an argument is dropped. *)
Theorem bare_url_cut_at_equals (H : Host) (r v : string) :
  Index ("http" ++ r) "=" < 0 ->
  arg_effect H ("http" ++ r) = Ret (Some (set_Url ("http" ++ r))) /\
  arg_effect H (("http" ++ r) ++ "=" ++ v) = Ret (Some (set_Url ("http" ++ r))).
Proof.
  intros Hk.
  assert (Hpre : HasPrefix ("http" ++ r) "http" = true).
  { unfold HasPrefix. change ("http" ++ r) with (String "h" (String "t" (String "t" (String "p" r)))).
    destruct r; reflexivity. }
  split.
  - unfold arg_effect. rewrite (SplitN2_bare _ Hk). cbn [nth]. rewrite Hpre.
    change ("http" ++ r) with (String "h" (String "t" (String "t" (String "p" r)))).
    reflexivity.
  - unfold arg_effect. rewrite (SplitN2_joined _ v Hk). cbn [nth]. rewrite Hpre.
    change ("http" ++ r) with (String "h" (String "t" (String "t" (String "p" r)))).
    reflexivity.
Qed.

Lemma bare_url_cut_at_equals_witness :
  Index ("http" ++ "://x/get?a") "=" < 0 /\
  arg_effect Samples.http_host "http://x/get?a=b" = Ret (Some (set_Url "http://x/get?a")).
Proof.
  split; [reflexivity|].
  exact (proj2 (bare_url_cut_at_equals Samples.http_host "://x/get?a" "b" eq_refl)).
Defined.

Lemma split_on_none (c : ascii) (v : string) :
  Run.has_byte c v = false -> split_on c v = (v, []).
Proof.
  induction v as [|x v IH]; intros Hno; [reflexivity|].
  cbn [Run.has_byte] in Hno. apply orb_false_elim in Hno as [Hx Hv].
  cbn [split_on]. rewrite (IH Hv), Hx. reflexivity.
Qed.

Lemma split_on_first (c : ascii) (u r : string) :
  Run.has_byte c u = false ->
  split_on c (u ++ String c r) = (u, let '(h, t) := split_on c r in h :: t).
Proof.
  induction u as [|x u IH]; intros Hno.
  - rewrite app_nil_l. cbn [split_on]. rewrite Ascii.eqb_refl.
    destruct (split_on c r). reflexivity.
  - cbn [Run.has_byte] in Hno. apply orb_false_elim in Hno as [Hx Hu].
    rewrite app_cons. cbn [split_on]. rewrite (IH Hu), Hx. reflexivity.
Qed.

Lemma Split_none (c : ascii) (v : string) : Run.has_byte c v = false -> Split v c = [v].
Proof. intros Hno. unfold Split. rewrite (split_on_none c v Hno). reflexivity. Qed.

Lemma Split_first (c : ascii) (u r : string) :
  Run.has_byte c u = false -> Split (u ++ String c r) c = u :: Split r c.
Proof.
  intros Hno. unfold Split. rewrite (split_on_first c u r Hno).
  destruct (split_on c r). reflexivity.
Qed.





(** X22. Deleting a client. [http client del name] on a known name takes
    the name out of the registry and leaves every other name and every
    object alone; after it, and for any name the registry does not hold,
    [mod] and [del] fail the test with "unknown http client" and change
    nothing. *)
Theorem deleted_client_is_unknown (H : Host) (name : string) (args : list string)
    (s : hstate) :
  (forall l, httpClients s !! name = Some l ->
   manageHttpClient H ["del"; name] s =
     ({| httpClients := delete name (httpClients s); heap := heap s |}, Ret tt)) /\
  (httpClients s !! name = None ->
   manageHttpClient H ("mod" :: name :: args) s = (s, Fatal (UnknownHttpClient name)) /\
   manageHttpClient H ("del" :: name :: args) s = (s, Fatal (UnknownHttpClient name))) /\
  (forall s', fst (manageHttpClient H ["del"; name] s) = s' ->
   httpClients s' !! name = None /\
   (forall other, other <> name -> httpClients s' !! other = httpClients s !! other) /\
   heap s' = heap s).
Proof.
  assert (Hdel : manageHttpClient H ["del"; name] s =
            match httpClients s !! name with
            | Some _ => ({| httpClients := delete name (httpClients s); heap := heap s |}, Ret tt)
            | None => (s, Fatal (UnknownHttpClient name))
            end).
  { unfold manageHttpClient. cbn [String.eqb Ascii.eqb Bool.eqb]. reflexivity. }
  split; [|split].
  - intros l Hl. rewrite Hdel, Hl. reflexivity.
  - intros Hnone. split.
    + unfold manageHttpClient. cbn [String.eqb Ascii.eqb Bool.eqb]. rewrite Hnone. reflexivity.
    + unfold manageHttpClient. cbn [String.eqb Ascii.eqb Bool.eqb]. rewrite Hnone. reflexivity.
  - intros s' <-. rewrite Hdel.
    destruct (httpClients s !! name) as [l|] eqn:Hl; cbn [fst httpClients heap].
    + split; [apply lookup_delete_eq|]. split; [|reflexivity].
      intros other Hne. apply lookup_delete_ne. congruence.
    + split; [exact Hl|]. split; reflexivity.
Qed.

Lemma deleted_client_is_unknown_witness :
  httpClients Samples.one_client !! "api" = Some 1%positive /\
  httpClients (fst (manageHttpClient Samples.http_host ["del"; "api"] Samples.one_client))
    !! "api" = None.
Proof.
  split; [apply lookup_singleton_eq|].
  exact (proj1 (proj2 (proj2 (deleted_client_is_unknown Samples.http_host "api" []
                                Samples.one_client)) _ eq_refl)).
Defined.

(** X23. Creating a client. [http client new name args...] whose arguments
    are all accepted puts the name in the registry, bound to a new object:
    a request with method [GET] and nothing else set, to which the
    arguments were applied. Every object the heap held and every other
    name of the registry stay as they were; with no name given the client
    is called [default]. When an argument is not accepted the registry is
    not changed. *)
Theorem new_client (H : Host) (name : string) (args : list string) (s : hstate) :
  let l := fresh (dom (heap s)) in
  let built := applyArgsToReq H l args (<[l := new_agent]> (heap s)) in
  manageHttpClient H ("new" :: name :: args) s =
    ({| httpClients := match checked (snd built) with
                       | Ret req => <[name := req]> (httpClients s)
                       | _ => httpClients s
                       end;
        heap := fst built |},
     match checked (snd built) with
     | Ret _ => Ret tt
     | Fatal e => Fatal e
     | Panic p => Panic p
     end) /\
  (forall req, checked (snd built) = Ret req -> req = l) /\
  (forall l' a, heap s !! l' = Some a -> fst built !! l' = Some a) /\
  manageHttpClient H ["new"] s =
    ({| httpClients := <["default" := l]> (httpClients s);
        heap := <[l := new_agent]> (heap s) |}, Ret tt).
Proof.
  intros l built.
  destruct built as [h1 r] eqn:Hbuilt. unfold built in Hbuilt.
  pose proof (applyArgsToReq_frame H args l _ h1 r Hbuilt) as [Hframe Hsame].
  split; [|split; [|split]].
  - unfold manageHttpClient, newReqFromArgs, alloc. cbn [String.eqb Ascii.eqb Bool.eqb].
    fold l. rewrite Hbuilt. cbn [fst snd].
    destruct (checked r); reflexivity.
  - cbn [snd]. intros req Hreq. destruct r as [[q|e]|f|p]; try discriminate.
    cbn [checked] in Hreq. injection Hreq as <-. apply Hsame. reflexivity.
  - cbn [fst]. intros l' a Hl'.
    pose proof (fresh_not_used _ _ _ Hl') as Hne. fold l in Hne.
    rewrite Hframe by exact Hne. rewrite lookup_insert_ne by congruence. exact Hl'.
  - reflexivity.
Qed.

(** [http client new b POST] beside the client [api]: the template of
    [api] is still there. *)
Lemma new_client_witness :
  heap Samples.one_client !! 1%positive = Some Samples.api_template /\
  fst (applyArgsToReq Samples.http_host (fresh (dom (heap Samples.one_client))) ["POST"]
         (<[fresh (dom (heap Samples.one_client)) := new_agent]> (heap Samples.one_client)))
    !! 1%positive = Some Samples.api_template.
Proof.
  assert (Hl : heap Samples.one_client !! 1%positive = Some Samples.api_template)
    by apply lookup_singleton_eq.
  pose proof (new_client Samples.http_host "b" ["POST"] Samples.one_client) as Hnew.
  cbv zeta in Hnew. destruct Hnew as (_ & _ & Hkeep & _).
  split; [exact Hl|exact (Hkeep _ _ Hl)].
Defined.

(** X26. Modifying a client. [http client mod name args...] on a known name
    applies the arguments to the registered object itself, not to a copy:
    the registry is as it was, every other object is unchanged, and the
    object is left as the arguments changed it also when one of them is
    not accepted and the test fails. *)
Theorem mod_client_in_place (H : Host) (name : string) (args : list string) (s : hstate)
    (l : loc) :
  httpClients s !! name = Some l ->
  let built := applyArgsToReq H l args (heap s) in
  let s' := fst (manageHttpClient H ("mod" :: name :: args) s) in
  httpClients s' = httpClients s /\
  heap s' = fst built /\
  (forall l', l' <> l -> heap s' !! l' = heap s !! l') /\
  snd (manageHttpClient H ("mod" :: name :: args) s) =
    match checked (snd built) with
    | Ret _ => Ret tt
    | Fatal e => Fatal e
    | Panic p => Panic p
    end.
Proof.
  intros Hname built s'. unfold s', built.
  unfold manageHttpClient. cbn [String.eqb Ascii.eqb Bool.eqb]. rewrite Hname.
  destruct (applyArgsToReq H l args (heap s)) as [h1 r] eqn:Hbuilt.
  pose proof (applyArgsToReq_frame H args l _ h1 r Hbuilt) as [Hframe Hsame].
  destruct r as [[q|e]|f|p]; cbn [checked fst snd httpClients heap].
  - rewrite (Hsame q eq_refl). rewrite insert_id by exact Hname.
    repeat split; try reflexivity. exact Hframe.
  - repeat split; try reflexivity. exact Hframe.
  - repeat split; try reflexivity. exact Hframe.
  - repeat split; try reflexivity. exact Hframe.
Qed.

(** [http client mod api POST bogus]: the test fails at [bogus], and the
    template of [api] has the method [POST] all the same. *)
Lemma mod_client_in_place_witness :
  httpClients Samples.one_client !! "api" = Some 1%positive /\
  heap (fst (manageHttpClient Samples.http_host ["mod"; "api"; "POST"; "bogus"]
               Samples.one_client))
  = alter (set_Method "POST") 1%positive {[ 1%positive := Samples.api_template ]} /\
  (exists e, snd (manageHttpClient Samples.http_host ["mod"; "api"; "POST"; "bogus"]
                    Samples.one_client) = Fatal (CheckFailed e)).
Proof.
  assert (Hname : httpClients Samples.one_client !! "api" = Some 1%positive)
    by apply lookup_singleton_eq.
  pose proof (mod_client_in_place Samples.http_host "api" ["POST"; "bogus"]
                Samples.one_client 1%positive Hname) as Hmod.
  cbv zeta in Hmod. destruct Hmod as (_ & Hheap & _ & Hres).
  split; [exact Hname|]. split; [rewrite Hheap; reflexivity|].
  rewrite Hres. eexists. reflexivity.
Defined.

End HttpMore.
